(** * Voice-timeline core: text analysis, vocal parameters and timing

    A shallow embedding of the analysis core of the repository:
    - [src/services/grokService.ts]: [calculateTiming],
      [analyzeTextWithGrok], [analyzeTextEnvironments],
      [analyzeTextLocally], [mapEnvironmentToSounds];
    - [src/services/elevenlabs/voiceSettings.ts]: [getVoiceSettings];
    - [src/services/elevenLabsAPI.ts]: the prosody rate chosen by
      [generateVoiceWithEnvironment].

    Conventions of the embedding.
    - A JavaScript string is the list of its UTF-16 code units ([jsstring]),
      so that [length] is the [.length] of the source.
    - A JavaScript number is an exact rational ([Q]): no rounding to a
      double is modelled, and the infinities are outside the model.  What is
      stated of the order of computed times is therefore limited to what
      rounding keeps (adding a positive duration never gives less).  [NaN]
      is modelled where the source can produce it: [parseInt] returns an
      [option], and the voice settings are of a type [number] that has it.
    - An object literal used as a table is read with its own keys first, then
      with the names that every object inherits ([constructor], [toString],
      ...), as an index expression of the source does.
    - The network round trip of [analyzeTextWithGrok] is a parameter: the
      outcome of [fetch] and of the JSON extraction is given as a value of
      type [FetchOutcome]. *)

From Stdlib Require Import List Bool Arith NArith ZArith QArith Qminmax.
From Stdlib Require Import Ascii String DecimalString Lia Lqa.
Import ListNotations.

Set Implicit Arguments.

(* ================================================================== *)
(** * JavaScript strings *)
(* ================================================================== *)

Module JsString.

Local Open Scope N_scope.

(** A string is a sequence of UTF-16 code units. *)
Definition jsstring := list N.

(** ** Literals

    Literals are written as ordinary (UTF-8) strings of this file and decoded
    to code units by [lit]. *)

Fixpoint bytes_of (s : string) : list N :=
  match s with
  | EmptyString => []
  | String a t => N_of_ascii a :: bytes_of t
  end.

Definition units_of_codepoint (cp : N) : list N :=
  if cp <? 65536 then [cp]
  else let v := cp - 65536 in [55296 + v / 1024; 56320 + v mod 1024].

Fixpoint utf8_decode (bs : list N) : list N :=
  match bs with
  | [] => []
  | b :: t =>
      if b <? 128 then b :: utf8_decode t
      else if b <? 224 then
        match t with
        | b2 :: t2 => ((b - 192) * 64 + (b2 - 128)) :: utf8_decode t2
        | _ => []
        end
      else if b <? 240 then
        match t with
        | b2 :: b3 :: t3 =>
            ((b - 224) * 4096 + (b2 - 128) * 64 + (b3 - 128)) :: utf8_decode t3
        | _ => []
        end
      else
        match t with
        | b2 :: b3 :: b4 :: t4 =>
            units_of_codepoint
              ((b - 240) * 262144 + (b2 - 128) * 4096 + (b3 - 128) * 64 + (b4 - 128))
            ++ utf8_decode t4
        | _ => []
        end
  end.

Definition lit (s : string) : jsstring := utf8_decode (bytes_of s).

(** ** Equality, prefixes and [String.prototype.includes] *)

Fixpoint eqb (a b : jsstring) : bool :=
  match a, b with
  | [], [] => true
  | x :: a', y :: b' => (x =? y) && eqb a' b'
  | _, _ => false
  end.

Fixpoint startsWith (s pre : jsstring) {struct pre} : bool :=
  match pre, s with
  | [], _ => true
  | p :: pre', x :: s' => (x =? p) && startsWith s' pre'
  | _ :: _, [] => false
  end.

(** [s.includes(sub)] *)
Fixpoint includes (s sub : jsstring) : bool :=
  startsWith s sub ||
  match s with
  | [] => false
  | _ :: t => includes t sub
  end.

(** ** Character classes *)

(** [\s] of regular expressions, which is also what [trim] removes:
    WhiteSpace and LineTerminator of ECMAScript. *)
Definition isSpace (c : N) : bool :=
  ((9 <=? c) && (c <=? 13)) || (c =? 32) || (c =? 160) || (c =? 5760)
  || ((8192 <=? c) && (c <=? 8202)) || (c =? 8232) || (c =? 8233)
  || (c =? 8239) || (c =? 8287) || (c =? 12288) || (c =? 65279).

(** [\d] *)
Definition isDigit (c : N) : bool := (48 <=? c) && (c <=? 57).

Definition isChar (a : ascii) (c : N) : bool := c =? N_of_ascii a.

(** [[\d\.\s]] *)
Definition isNumbering (c : N) : bool :=
  isDigit c || isChar "." c || isSpace c.

(** [[.!?]] *)
Definition isTerminal (c : N) : bool :=
  isChar "." c || isChar "!" c || isChar "?" c.

(** ** [trim] *)

Fixpoint trimStart (s : jsstring) : jsstring :=
  match s with
  | c :: t => if isSpace c then trimStart t else s
  | [] => []
  end.

Definition trimEnd (s : jsstring) : jsstring := rev (trimStart (rev s)).

Definition trim (s : jsstring) : jsstring := trimEnd (trimStart s).

(** ** Regular expressions

    The expressions of the source are sequences of character classes, each
    taken once, or under a greedy [*] or [+], possibly anchored by [^] and
    [$].  [matchHere] is the backtracking matcher at one position: it
    returns the input left after the match. *)

Inductive quant := One | Star | Plus.

Record atom := Atom { cls : N -> bool; rep : quant }.

Definition pattern := list atom.

Section Matcher.
Variable k : jsstring -> option jsstring.

(** Greedy repetition of a class, then the continuation [k]; gives a unit
    back when the continuation fails. *)
Fixpoint star (c : N -> bool) (s : jsstring) : option jsstring :=
  match s with
  | x :: t =>
      if c x then
        match star c t with
        | Some r => Some r
        | None => k s
        end
      else k s
  | [] => k []
  end.
End Matcher.

(** [eol] tells whether the expression ends with [$]. *)
Fixpoint matchHere (p : pattern) (eol : bool) (s : jsstring) : option jsstring :=
  match p with
  | [] => if eol then match s with [] => Some [] | _ :: _ => None end else Some s
  | a :: p' =>
      match rep a with
      | One =>
          match s with
          | x :: t => if cls a x then matchHere p' eol t else None
          | [] => None
          end
      | Star => star (matchHere p' eol) (cls a) s
      | Plus =>
          match s with
          | x :: t => if cls a x then star (matchHere p' eol) (cls a) t else None
          | [] => None
          end
      end
  end.

(** [s.replace(/^p/, r)]: one attempt, at the start of the string. *)
Definition replaceAtStart (p : pattern) (eol : bool) (r s : jsstring) : jsstring :=
  match matchHere p eol s with
  | Some rest => r ++ rest
  | None => s
  end.

(** [s.replace(/p/, r)]: the leftmost match is replaced. *)
Fixpoint replaceFirst (p : pattern) (eol : bool) (r s : jsstring) : jsstring :=
  match matchHere p eol s with
  | Some rest => r ++ rest
  | None =>
      match s with
      | x :: t => x :: replaceFirst p eol r t
      | [] => []
      end
  end.

(** [/p/.test(s)] *)
Fixpoint test (p : pattern) (eol : bool) (s : jsstring) : bool :=
  match matchHere p eol s with
  | Some _ => true
  | None =>
      match s with
      | _ :: t => test p eol t
      | [] => false
      end
  end.

(** [s.replace(/p/g, r)]: matches are taken from left to right, the search
    resuming where the previous match ended.  [skip] counts the units of the
    current match still to be dropped. *)
Fixpoint replaceAll_from (p : pattern) (r : jsstring) (skip : nat) (s : jsstring)
  : jsstring :=
  match skip with
  | S n =>
      match s with
      | _ :: t => replaceAll_from p r n t
      | [] => []
      end
  | O =>
      match matchHere p false s with
      | Some rest =>
          match (List.length s - List.length rest)%nat, s with
          | S m, _ :: t => r ++ replaceAll_from p r m t
          | O, x :: t => r ++ x :: replaceAll_from p r O t
          | _, [] => r
          end
      | None =>
          match s with
          | x :: t => x :: replaceAll_from p r O t
          | [] => []
          end
      end
  end.

Definition replaceAll (p : pattern) (r s : jsstring) : jsstring :=
  replaceAll_from p r O s.

(** [s.split(/p/)] for an expression [p] that matches no empty string
    (the only ones the source splits on).  [cur] is the piece being read,
    reversed. *)
Fixpoint split_from (p : pattern) (skip : nat) (cur : jsstring) (s : jsstring)
  : list jsstring :=
  match skip with
  | S n =>
      match s with
      | _ :: t => split_from p n cur t
      | [] => [rev cur]
      end
  | O =>
      match s with
      | [] => [rev cur]
      | x :: t =>
          match matchHere p false s with
          | Some rest =>
              match (List.length s - List.length rest)%nat with
              | S m => rev cur :: split_from p m [] t
              | O => split_from p O (x :: cur) t
              end
          | None => split_from p O (x :: cur) t
          end
      end
  end.

Definition split (p : pattern) (s : jsstring) : list jsstring :=
  split_from p O [] s.

(** [s.replace(pat, r)] with a string [pat]: the first occurrence only. *)
Fixpoint replaceString (s pat r : jsstring) : jsstring :=
  if startsWith s pat then r ++ skipn (List.length pat) s
  else
    match s with
    | x :: t => x :: replaceString t pat r
    | [] => []
    end.

(** ** Case and diacritics

    [toLowerCase] and [normalize("NFD")] are functions of the platform.
    They are modelled on the Basic Latin and Latin-1 letters (the alphabet
    of the texts and of the catalog keys) and on the white space characters;
    every other code unit is left as it is. *)

Definition toLowerCase_unit (c : N) : N :=
  if ((65 <=? c) && (c <=? 90))
     || ((192 <=? c) && (c <=? 222) && negb (c =? 215))
  then c + 32 else c.

Definition toLowerCase (s : jsstring) : jsstring := map toLowerCase_unit s.

(** Canonical decompositions of the capital letters of Latin-1:
    (code unit, base letter, combining mark). *)
Definition latin1_decompositions : list (N * (N * N)) :=
  [ (192, (65, 768)); (193, (65, 769)); (194, (65, 770)); (195, (65, 771));
    (196, (65, 776)); (197, (65, 778)); (199, (67, 807));
    (200, (69, 768)); (201, (69, 769)); (202, (69, 770)); (203, (69, 776));
    (204, (73, 768)); (205, (73, 769)); (206, (73, 770)); (207, (73, 776));
    (209, (78, 771));
    (210, (79, 768)); (211, (79, 769)); (212, (79, 770)); (213, (79, 771));
    (214, (79, 776));
    (217, (85, 768)); (218, (85, 769)); (219, (85, 770)); (220, (85, 776));
    (221, (89, 769)) ].

Fixpoint assoc (A : Type) (c : N) (l : list (N * A)) : option A :=
  match l with
  | [] => None
  | (k, v) :: t => if c =? k then Some v else assoc c t
  end.

Definition nfd_unit (c : N) : list N :=
  if c =? 8192 then [8194]
  else if c =? 8193 then [8195]
  else if c =? 255 then [121; 776]
  else
    match assoc c latin1_decompositions with
    | Some (b, m) => [b; m]
    | None =>
        match assoc (c - 32) latin1_decompositions with
        | Some (b, m) => if (224 <=? c) && (c <=? 253) then [b + 32; m] else [c]
        | None => [c]
        end
    end.

(** [s.normalize("NFD")] *)
Definition normalizeNFD (s : jsstring) : jsstring := flat_map nfd_unit s.

(** The class of the combining marks U+0300 to U+036F. *)
Definition isCombiningMark (c : N) : bool := (768 <=? c) && (c <=? 879).

(** ** Numbers and strings *)

Fixpoint digitsValue (acc : Z) (s : jsstring) : Z :=
  match s with
  | c :: t => if isDigit c then digitsValue (10 * acc + Z.of_N (c - 48))%Z t else acc
  | [] => acc
  end.

Definition hasDigit (s : jsstring) : bool :=
  match s with
  | c :: _ => isDigit c
  | [] => false
  end.

(** [parseInt(s, 10)]; [None] is [NaN]. *)
Definition parseInt (s : jsstring) : option Z :=
  let s := trimStart s in
  let '(neg, s) :=
    match s with
    | c :: t =>
        if isChar "-" c then (true, t)
        else if isChar "+" c then (false, t)
        else (false, s)
    | [] => (false, s)
    end in
  if hasDigit s then
    let v := digitsValue 0 s in
    Some (if neg then (- v)%Z else v)
  else None.

(** The decimal writing of an integer, as a template literal prints it. *)
Definition ofInteger (z : Z) : jsstring :=
  lit (DecimalString.NilZero.string_of_int (Z.to_int z)).

(** ** Object literals used as tables

    [table[key]] on an object literal finds the own keys of the literal and,
    for any other key, the members of [Object.prototype], which every object
    inherits.  All of them are functions, but [__proto__], which is the
    prototype itself: none is falsy, and none has a property named after a
    field of the tables of this program. *)
Definition objectPrototypeMembers : list jsstring :=
  [ lit "constructor"; lit "__proto__"; lit "hasOwnProperty"; lit "isPrototypeOf";
    lit "propertyIsEnumerable"; lit "toString"; lit "toLocaleString"; lit "valueOf";
    lit "__defineGetter__"; lit "__defineSetter__";
    lit "__lookupGetter__"; lit "__lookupSetter__" ].

Definition inheritedMember (key : jsstring) : bool :=
  existsb (eqb key) objectPrototypeMembers.

End JsString.

(* ================================================================== *)
(** * grokService.ts *)
(* ================================================================== *)

Module Grok.

Import JsString.
Local Open Scope Q_scope.

(** [s === "literal"] *)
Definition strictEq (s : jsstring) (l : string) : bool := eqb s (lit l).
Notation "s === l" := (strictEq s l) (at level 70, no associativity).

(** [a > b] and [a < b] on numbers. *)
Definition Qgtb (a b : Q) : bool := negb (Qle_bool a b).
Definition Qltb (a b : Q) : bool := negb (Qle_bool b a).

(** ** Interfaces

    A field that several interfaces of the source share under one name is
    prefixed here ([vocal_type], [env_type], [expr_duration], ...). *)

Record VocalCharacteristics := {
  intensity : Q;             (* 0-100% *)
  vocal_type : jsstring;     (* type: murmure, normal, gémissement, cri *)
  rhythm : jsstring;         (* très lent, lent, normal, rapide *)
  pitch : Q                  (* -20 à +20% *)
}.

Record ExpressionDetails := {
  breathing : jsstring;
  sounds : list jsstring;
  expr_duration : Q          (* duration *)
}.

Record ElevenLabsParams := {
  stability : Q;
  similarity_boost : Q;
  speed : option jsstring;   (* speed?: string *)
  pitch_shift : option Q     (* pitch_shift?: number *)
}.

Record EnvironmentDetails := {
  env_type : jsstring;       (* type *)
  suggestedSound : option jsstring
}.

Record EnhancedSegment := {
  text : jsstring;
  vocal : VocalCharacteristics;
  expressions : ExpressionDetails;
  elevenlabs : ElevenLabsParams;
  seg_environment : option EnvironmentDetails   (* environment? *)
}.

Inductive TransitionType := crossfade | cut | overlap.

Definition TransitionType_eqb (a b : TransitionType) : bool :=
  match a, b with
  | crossfade, crossfade | cut, cut | overlap, overlap => true
  | _, _ => false
  end.

Record Transition := {
  trans_type : TransitionType;   (* type *)
  trans_duration : Q             (* duration *)
}.

Record EnvironmentDetection := {
  segment : jsstring;
  environment : jsstring;
  soundEffects : list jsstring;
  emotionalTone : jsstring;
  speechRate : jsstring;
  volume : jsstring;
  startTime : option Q;
  duration : option Q;
  fadeIn : option Q;
  fadeOut : option Q;
  transition : option Transition;
  elevenlabsParams : option ElevenLabsParams;
  expressionDetails : option ExpressionDetails
}.

Record TimingInfo := {
  estimatedDuration : Q;
  timing_fadeIn : Q;         (* fadeIn *)
  timing_fadeOut : Q;        (* fadeOut *)
  transitionType : TransitionType;
  transitionDuration : Q
}.

(** ** calculateTiming *)

(** [/\s+/] *)
Definition re_spaces : pattern := [Atom isSpace Plus].

(** [/[.!?]$/] *)
Definition re_terminal : pattern := [Atom isTerminal One].

Definition calculateTiming (text speechRate : jsstring) : TimingInfo :=
  let words := List.length (split re_spaces (trim text)) in
  let wordsPerSecond :=
    if speechRate === "très lent" then 1.0
    else if speechRate === "lent" then 1.5
    else if speechRate === "modéré" then 2.0
    else 2.5 in
  let estimatedDuration := inject_Z (Z.of_nat words) / wordsPerSecond in
  let fadeIn := Qmin 1.0 (estimatedDuration * 0.1) in
  let fadeOut := Qmin 1.0 (estimatedDuration * 0.1) in
  let hasEllipsis := includes text (lit "...") in
  let endsWithPunctuation := test re_terminal true (trim text) in
  let transitionType :=
    if hasEllipsis then crossfade
    else if endsWithPunctuation then cut
    else overlap in
  let transitionDuration :=
    match transitionType with
    | crossfade => 1.0
    | overlap => 0.5
    | cut => 0.2
    end in
  {| estimatedDuration := estimatedDuration;
     timing_fadeIn := fadeIn;
     timing_fadeOut := fadeOut;
     transitionType := transitionType;
     transitionDuration := transitionDuration |}.

(** ** mapEnvironmentToSounds *)

Definition defaultSounds : list jsstring := [lit "calm-nature-sounds-196258.mp3"].

(** The catalog, in the order of its declaration, which is the order of
    [Object.entries]. *)
Definition environmentSounds : list (jsstring * list jsstring) :=
  [ (lit "plage", [lit "ocean-waves-112906.mp3"; lit "sea-and-seagull-wave-5932.mp3"]);
    (lit "mer", [lit "ocean-waves-112906.mp3"; lit "sea-wave-34088.mp3"]);
    (lit "océan", [lit "ocean-waves-112906.mp3"; lit "sea-and-seagull-wave-5932.mp3"]);
    (lit "forêt", [lit "forest-ambience-296528.mp3"; lit "bird-333090.mp3"]);
    (lit "bois", [lit "forest-ambience-296528.mp3"; lit "bird-333090.mp3"]);
    (lit "pluie", [lit "light-spring-rain-nature-sounds-331710.mp3";
                   lit "calm-nature-sounds-196258.mp3"]);
    (lit "orage", [lit "light-spring-rain-nature-sounds-331710.mp3";
                   lit "calm-nature-sounds-196258.mp3"]);
    (lit "ville", [lit "city-ambience-9270.mp3"; lit "opening-the-front-door-210347.mp3"]);
    (lit "rue", [lit "city-ambience-9270.mp3"; lit "opening-the-front-door-210347.mp3"]);
    (lit "chambre", [lit "mid-nights-sound-291477.mp3";
                     lit "main-door-opening-closing-38280.mp3"]);
    (lit "lit", [lit "mid-nights-sound-291477.mp3";
                 lit "main-door-opening-closing-38280.mp3"]);
    (lit "ruisseau", [lit "relaxing-mountains-rivers-streams-running-water-18178.mp3";
                      lit "river-26984.mp3"]);
    (lit "rivière", [lit "relaxing-mountains-rivers-streams-running-water-18178.mp3";
                     lit "river-26984.mp3"]);
    (lit "vent", [lit "windy-hut-fx-64675.mp3"]);
    (lit "nature", [lit "calm-nature-sounds-196258.mp3"; lit "bird-333090.mp3"]);
    (lit "porte", [lit "main-door-opening-closing-38280.mp3";
                   lit "opening-the-front-door-210347.mp3"]);
    (lit "nuit", [lit "mid-nights-sound-291477.mp3"]);
    (lit "default", defaultSounds) ].

(** [toLowerCase], [normalize('NFD')], removal of the combining marks
    U+0300 to U+036F, and [replace(/\s+/g, '_')]. *)
Definition normalizeEnvironment (s : jsstring) : jsstring :=
  replaceAll re_spaces (lit "_")
    (replaceAll [Atom isCombiningMark One] []
       (normalizeNFD (toLowerCase s))).

(** The [for ... of Object.entries(environmentSounds)] loop: the sounds of
    the first entry whose key contains the input or is contained in it. *)
Fixpoint findSounds (normalizedEnv : jsstring)
    (entries : list (jsstring * list jsstring)) : option (list jsstring) :=
  match entries with
  | [] => None
  | (env, sounds) :: rest =>
      let normalizedKey := normalizeEnvironment env in
      if includes normalizedEnv normalizedKey || includes normalizedKey normalizedEnv
      then Some sounds
      else findSounds normalizedEnv rest
  end.

Definition mapEnvironmentToSounds (environment : jsstring) : list jsstring :=
  let normalizedEnv := normalizeEnvironment environment in
  match findSounds normalizedEnv environmentSounds with
  | Some sounds => sounds
  | None => defaultSounds
  end.

(** ** analyzeTextWithGrok

    The request itself is outside the model.  What the function does with
    its outcome is kept: [fetch] may reject; the response has an [ok] flag
    and a status; reading the body, extracting the JSON text and parsing it
    may raise; and the parsed value is returned without any check of its
    shape. *)

(** What [JSON.parse(jsonContent).segments] is: segments of the declared
    shape, or a value on which their conversion by
    [analyzeTextEnvironments] raises (no array, a segment without [text],
    [vocal], [expressions] or [elevenlabs]). *)
Inductive Payload :=
| Segments (segments : list EnhancedSegment)
| IllTyped.

Record Response := {
  ok : bool;
  status : Z;
  statusText : jsstring;
  (** lines 192-239 on this response; [None] when one of them raises *)
  parsedResponse : option Payload
}.

Inductive FetchOutcome :=
| NetworkFailure                 (* fetch rejects *)
| Responded (response : Response).

Inductive GrokError :=
| FetchError
| ApiError (status : Z) (statusText : jsstring)   (* `Erreur API: ${status} - ${statusText}` *)
| InvalidResponse.

(** The body of the [try] block. *)
Definition requestSegments (outcome : FetchOutcome) : GrokError + Payload :=
  match outcome with
  | NetworkFailure => inl FetchError
  | Responded response =>
      if negb (ok response) then inl (ApiError (status response) (statusText response))
      else
        match parsedResponse response with
        | None => inl InvalidResponse
        | Some payload => inr payload
        end
  end.

Definition defaultSegment (text : jsstring) : EnhancedSegment :=
  {| text := text;
     vocal := {| intensity := 70; vocal_type := lit "normal";
                 rhythm := lit "lent"; pitch := -5 |};
     expressions := {| breathing := lit "légère"; sounds := []; expr_duration := 500 |};
     elevenlabs := {| stability := 0.65; similarity_boost := 0.8;
                      speed := None; pitch_shift := None |};
     seg_environment := Some {| env_type := lit "chambre";
                                suggestedSound := Some (lit "mid-nights-sound-291477.mp3") |} |}.

Definition analyzeTextWithGrok (text : jsstring) (outcome : FetchOutcome) : Payload :=
  match requestSegments outcome with
  | inr payload => payload
  | inl _error => Segments [defaultSegment text]
  end.

(** ** analyzeTextEnvironments: conversion of one segment *)

(** [/^\s*\d+\.\s*/], without its anchor *)
Definition re_leading_number : pattern :=
  [Atom isSpace Star; Atom isDigit Plus; Atom (isChar ".") One; Atom isSpace Star].

(** [/^\s*[\d\.\s]+/], without its anchor *)
Definition re_leading_numbering : pattern :=
  [Atom isSpace Star; Atom isNumbering Plus].

(** [/[\d\.\s]+\s*$/], without its anchor *)
Definition re_trailing_numbering : pattern :=
  [Atom isNumbering Plus; Atom isSpace Star].

(** [/\n\d+\.\s*/g] *)
Definition re_list_number : pattern :=
  [Atom (N.eqb 10) One; Atom isDigit Plus; Atom (isChar ".") One; Atom isSpace Star].

(** [/\s+\d+\s+/g] *)
Definition re_isolated_number : pattern :=
  [Atom isSpace Plus; Atom isDigit Plus; Atom isSpace Plus].

(** The five replacements and the [trim] applied to [segment.text]. *)
Definition cleanSegmentText (text : jsstring) : jsstring :=
  let t := replaceAtStart re_leading_number false [] text in
  let t := replaceAtStart re_leading_numbering false [] t in
  let t := replaceFirst re_trailing_numbering true [] t in
  let t := replaceAll re_list_number [10%N] t in
  let t := replaceAll re_isolated_number (lit " ") t in
  trim t.

(** [!cleanedText || cleanedText.length < 3] *)
Definition tooShort (cleanedText : jsstring) : bool :=
  match cleanedText with
  | [] => true
  | _ :: _ => (List.length cleanedText <? 3)%nat
  end.

Definition segmentText (segment : EnhancedSegment) : jsstring :=
  let cleanedText := cleanSegmentText (text segment) in
  if tooShort cleanedText then text segment else cleanedText.

(** [segment.environment?.type || 'chambre'] *)
Definition segmentEnvironment (segment : EnhancedSegment) : jsstring :=
  match seg_environment segment with
  | Some e => match env_type e with [] => lit "chambre" | _ :: _ => env_type e end
  | None => lit "chambre"
  end.

Definition deriveEmotionalTone (v : VocalCharacteristics) : jsstring :=
  if (vocal_type v === "gémissement") || Qgtb (intensity v) 80 then lit "excite"
  else if (vocal_type v === "cri") || Qgtb (intensity v) 90 then lit "jouissance"
  else if (vocal_type v === "murmure") || (vocal_type v === "chuchotement") then lit "murmure"
  else if Qgtb (intensity v) 70 then lit "intense"
  else if Qltb (intensity v) 50 then lit "doux"
  else lit "sensuel".

Definition convertSegment (segment : EnhancedSegment) : EnvironmentDetection :=
  let cleanedText := segmentText segment in
  let environment := segmentEnvironment segment in
  let soundEffects := mapEnvironmentToSounds environment in
  let emotionalTone := deriveEmotionalTone (vocal segment) in
  let speechRate :=
    if rhythm (vocal segment) === "très lent" then lit "très lent"
    else if rhythm (vocal segment) === "lent" then lit "lent"
    else if rhythm (vocal segment) === "rapide" then lit "rapide"
    else lit "modéré" in
  let volume :=
    if Qgtb (intensity (vocal segment)) 80 then lit "fort"
    else if Qltb (intensity (vocal segment)) 50 then lit "doux"
    else lit "normal" in
  {| segment := cleanedText;
     environment := environment;
     soundEffects := soundEffects;
     emotionalTone := emotionalTone;
     speechRate := speechRate;
     volume := volume;
     startTime := None; duration := None; fadeIn := None; fadeOut := None;
     transition := None;
     elevenlabsParams := Some
       {| stability := stability (elevenlabs segment);
          similarity_boost := similarity_boost (elevenlabs segment);
          speed := Some (if rhythm (vocal segment) === "très lent" then lit "25%"
                         else if rhythm (vocal segment) === "lent" then lit "35%"
                         else if rhythm (vocal segment) === "rapide" then lit "55%"
                         else lit "45%");
          pitch_shift := Some (pitch (vocal segment)) |};
     expressionDetails := Some
       {| breathing := breathing (expressions segment);
          sounds := sounds (expressions segment);
          expr_duration := expr_duration (expressions segment) |} |}.

(** ** Timing of the segments

    The second [results.map] of [analyzeTextEnvironments] and of
    [analyzeTextLocally], which are the same code: [currentTime] is the
    variable the callback updates, [index] its second argument and [len]
    is [results.length]. *)

Definition withTiming (seg : EnvironmentDetection) (currentTime : Q) (timing : TimingInfo)
  : EnvironmentDetection :=
  {| segment := segment seg;
     environment := environment seg;
     soundEffects := soundEffects seg;
     emotionalTone := emotionalTone seg;
     speechRate := speechRate seg;
     volume := volume seg;
     startTime := Some currentTime;
     duration := Some (estimatedDuration timing);
     fadeIn := Some (timing_fadeIn timing);
     fadeOut := Some (timing_fadeOut timing);
     transition := Some {| trans_type := transitionType timing;
                           trans_duration := transitionDuration timing |};
     elevenlabsParams := elevenlabsParams seg;
     expressionDetails := expressionDetails seg |}.

(** [currentTime] after the callback has run on a segment. *)
Definition nextTime (len index : nat) (currentTime : Q) (timing : TimingInfo) : Q :=
  let currentTime := currentTime + estimatedDuration timing in
  if TransitionType_eqb (transitionType timing) crossfade
     && (Z.of_nat index <? Z.of_nat len - 1)%Z
  then currentTime - transitionDuration timing
  else currentTime.

Fixpoint addTiming_from (len index : nat) (currentTime : Q)
    (results : list EnvironmentDetection) : list EnvironmentDetection :=
  match results with
  | [] => []
  | seg :: rest =>
      let timing := calculateTiming (segment seg) (speechRate seg) in
      withTiming seg currentTime timing
      :: addTiming_from len (S index) (nextTime len index currentTime timing) rest
  end.

Definition addTiming (results : list EnvironmentDetection) : list EnvironmentDetection :=
  addTiming_from (List.length results) 0 0 results.

(** ** analyzeTextLocally *)

(** [/\n\n+/] *)
Definition re_blank_lines : pattern := [Atom (N.eqb 10) One; Atom (N.eqb 10) Plus].

(** A letter of an expression under the [i] flag. *)
Definition isLetterI (a : ascii) (c : N) : bool := (toLowerCase_unit c =? N_of_ascii a)%N.

(** [/x+y+z+/i] *)
Definition re_onomatopoeia (x y z : ascii) : pattern :=
  [Atom (isLetterI x) Plus; Atom (isLetterI y) Plus; Atom (isLetterI z) Plus].

(** [segment.toLowerCase().includes(word)] *)
Definition mentions (segment : jsstring) (word : string) : bool :=
  includes (toLowerCase segment) (lit word).

Definition localEnvironment (segment : jsstring) : jsstring :=
  if mentions segment "plage" || mentions segment "mer" || mentions segment "vague"
  then lit "plage"
  else if mentions segment "forêt" || mentions segment "bois" || mentions segment "arbre"
  then lit "forêt"
  else if mentions segment "pluie" || mentions segment "orage" then lit "pluie"
  else if mentions segment "ville" || mentions segment "rue" then lit "ville"
  else lit "chambre".

Definition localEmotionalTone (segment : jsstring) : jsstring :=
  if mentions segment "gémis" || mentions segment "soupir" || mentions segment "excit"
  then lit "excite"
  else if mentions segment "extase" || mentions segment "jouir" || mentions segment "orgasme"
  then lit "jouissance"
  else if mentions segment "murmure" || mentions segment "chuchot" then lit "murmure"
  else if mentions segment "fort" || mentions segment "intense" || mentions segment "violent"
  then lit "intense"
  else if mentions segment "doux" || mentions segment "tendre" then lit "doux"
  else lit "sensuel".

Definition onomatopees (segment : jsstring) : list jsstring :=
  (if test (re_onomatopoeia "m" "h" "h") false segment then [lit "mhhh"] else [])
  ++ (if test (re_onomatopoeia "a" "h" "h") false segment then [lit "ahhh"] else [])
  ++ (if test (re_onomatopoeia "o" "h" "h") false segment then [lit "ohhh"] else [])
  ++ (if test (re_onomatopoeia "h" "a" "h") false segment then [lit "hahh"] else [])
  ++ (if test (re_onomatopoeia "o" "u" "i") false segment then [lit "oui"] else []).

Definition localSegment (segment : jsstring) : EnvironmentDetection :=
  let environment := localEnvironment segment in
  let emotionalTone := localEmotionalTone segment in
  {| segment := segment;
     environment := environment;
     soundEffects := mapEnvironmentToSounds environment;
     emotionalTone := emotionalTone;
     speechRate := lit "lent";
     volume := lit "normal";
     startTime := None; duration := None; fadeIn := None; fadeOut := None;
     transition := None;
     elevenlabsParams := Some
       {| stability := if emotionalTone === "jouissance" then 0.3
                       else if emotionalTone === "excite" then 0.4
                       else if emotionalTone === "murmure" then 0.8
                       else if emotionalTone === "intense" then 0.4
                       else 0.65;
          similarity_boost := if emotionalTone === "jouissance" then 0.95
                              else if emotionalTone === "excite" then 0.9
                              else if emotionalTone === "murmure" then 0.75
                              else if emotionalTone === "intense" then 0.9
                              else 0.8;
          speed := Some (lit "35%");
          pitch_shift := Some (if emotionalTone === "murmure" then -10
                               else if emotionalTone === "jouissance" then 5
                               else -5) |};
     expressionDetails := Some
       {| breathing := if (emotionalTone === "jouissance") || (emotionalTone === "excite")
                       then lit "haletante"
                       else if emotionalTone === "intense" then lit "profonde"
                       else lit "légère";
          sounds := onomatopees segment;
          expr_duration := 500 |} |}.

(** Nothing in the [try] block of [analyzeTextLocally] raises on a string,
    so its [catch] branch has no counterpart here. *)
Definition analyzeTextLocally (text : jsstring) : list EnvironmentDetection :=
  let paragraphs :=
    filter (fun p => (0 <? List.length (trim p))%nat) (split re_blank_lines text) in
  let segments := match paragraphs with [] => [text] | _ :: _ => paragraphs end in
  addTiming (map localSegment segments).

(** ** analyzeTextEnvironments *)

Inductive ConversionError := TypeError.

(** The body of the [try] block once [analyzeTextWithGrok] has answered:
    it raises on a payload without the declared shape. *)
Definition convertSegments (payload : Payload) : ConversionError + list EnvironmentDetection :=
  match payload with
  | Segments enhancedSegments => inr (addTiming (map convertSegment enhancedSegments))
  | IllTyped => inl TypeError
  end.

(** [analyzeTextWithGrok] catches its own errors, and the [catch] branch
    here hands the text to [analyzeTextLocally], which does not raise: the
    promise is always fulfilled, with a list of segments. *)
Definition analyzeTextEnvironments (text : jsstring) (outcome : FetchOutcome)
  : list EnvironmentDetection :=
  match convertSegments (analyzeTextWithGrok text outcome) with
  | inr results => results
  | inl _error => analyzeTextLocally text
  end.

End Grok.

(* ================================================================== *)
(** * elevenlabs/voiceSettings.ts *)
(* ================================================================== *)

Module VoiceSettings.

Import JsString.
Local Open Scope Q_scope.

(** A number of the settings: [NaN], or a rational. *)
Inductive number :=
| NaN
| Num (q : Q).

#[local] Coercion Num : Q >-> number.

(** [a * b] and [a + b]; [undefined] counts as [NaN] here. *)
Definition times (a b : number) : number :=
  match a, b with
  | Num x, Num y => Num (x * y)
  | _, _ => NaN
  end.

Definition plus (a b : number) : number :=
  match a, b with
  | Num x, Num y => Num (x + y)
  | _, _ => NaN
  end.

(** [Math.min(a, b)] and [Math.max(a, b)]: [NaN] when an argument is. *)
Definition mathMin (a b : number) : number :=
  match a, b with
  | Num x, Num y => Num (Qmin x y)
  | _, _ => NaN
  end.

Definition mathMax (a b : number) : number :=
  match a, b with
  | Num x, Num y => Num (Qmax x y)
  | _, _ => NaN
  end.

(** The two fields of [TextAnalysis] (declared in [elevenlabs/types.ts])
    that [getVoiceSettings] reads. *)
Record TextAnalysis := {
  intensity : Q;
  emotionalProgression : Q
}.

Record VoiceSettings := {
  stability : number;
  similarity_boost : number
}.

(** The own keys of the table [baseSettings]. *)
Definition baseSettings : list (jsstring * VoiceSettings) :=
  [ (lit "sensuel", {| stability := 0.55; similarity_boost := 0.88 |});
    (lit "excite", {| stability := 0.30; similarity_boost := 0.92 |});
    (lit "jouissance", {| stability := 0.20; similarity_boost := 0.95 |});
    (lit "murmure", {| stability := 0.70; similarity_boost := 0.82 |});
    (lit "intense", {| stability := 0.32; similarity_boost := 0.90 |});
    (lit "doux", {| stability := 0.65; similarity_boost := 0.83 |}) ].

Fixpoint lookup (key : jsstring) (table : list (jsstring * VoiceSettings))
  : option VoiceSettings :=
  match table with
  | [] => None
  | (k, v) :: rest => if eqb key k then Some v else lookup key rest
  end.

Definition sensuel : VoiceSettings := {| stability := 0.55; similarity_boost := 0.88 |}.

(** [baseSettings[emotion] || baseSettings.sensuel], as the two fields that
    are read from it.  An own key gives its settings.  A name that every
    object inherits gives a member of [Object.prototype], which is not falsy
    and so is kept: its [stability] and its [similarity_boost] are
    [undefined], [NaN] in the arithmetic that follows.  Any other label gives
    [undefined], and the settings of [sensuel] are taken. *)
Definition settingsFor (emotion : jsstring) : VoiceSettings :=
  match lookup emotion baseSettings with
  | Some settings => settings
  | None =>
      if inheritedMember emotion then {| stability := NaN; similarity_boost := NaN |}
      else sensuel
  end.

Definition getVoiceSettings (emotion : jsstring) (analysis : TextAnalysis) : VoiceSettings :=
  let settings := settingsFor emotion in
  {| stability :=
       mathMax 0.15 (mathMin 0.75 (times (stability settings)
                                         (1 - intensity analysis * 0.3)));
     similarity_boost :=
       mathMax 0.75 (mathMin 0.98 (plus (similarity_boost settings)
                                        (emotionalProgression analysis * 0.15))) |}.

End VoiceSettings.

(** A rational is read as a number of the settings wherever one is expected. *)
Coercion VoiceSettings.Num : Q >-> VoiceSettings.number.

(* ================================================================== *)
(** * elevenLabsAPI.ts *)
(* ================================================================== *)

Module ElevenLabsAPI.

Import JsString.
Import Grok.

(** [`${n}%`]; [None] is [NaN]. *)
Definition percent (n : option Z) : jsstring :=
  match n with
  | Some z => ofInteger z ++ lit "%"
  | None => lit "NaN%"
  end.

(** [Math.min(speedValue, 35)] *)
Definition capSpeed (speedValue : option Z) : option Z :=
  match speedValue with
  | Some v => Some (Z.min v 35)
  | None => None
  end.

(** The variable [speed] of [generateVoiceWithEnvironment] when the
    [prosody] element of a segment is written: the rate by emotional tone,
    then the rate of the segment's own parameters, bounded by 35. *)
Definition prosodySpeed (segment : EnvironmentDetection) : jsstring :=
  let byTone :=
    if emotionalTone segment === "jouissance" then lit "35%"
    else if emotionalTone segment === "excite" then lit "32%"
    else if emotionalTone segment === "murmure" then lit "20%"
    else if emotionalTone segment === "sensuel" then lit "25%"
    else if emotionalTone segment === "intense" then lit "30%"
    else lit "28%" in
  match elevenlabsParams segment with
  | Some params =>
      match speed params with
      | Some (c :: s) =>
          let speedValue := parseInt (replaceString (c :: s) (lit "%") []) in
          percent (capSpeed speedValue)
      | Some [] | None => byTone
      end
  | None => byTone
  end.

End ElevenLabsAPI.

(* ================================================================== *)
(** * Statements *)
(* ================================================================== *)

Module Properties.

Import JsString Grok ElevenLabsAPI.
Local Open Scope Q_scope.

(** ** Strings *)

(** [sub] occurs in [s]. *)
Definition Contains (s sub : jsstring) : Prop :=
  exists pre post, s = pre ++ sub ++ post.

(** The last unit of [s] is one of [.], [!], [?]. *)
Definition EndsWithTerminal (s : jsstring) : Prop :=
  exists pre c, s = pre ++ [c] /\ (c = 46%N \/ c = 33%N \/ c = 63%N).

(** White space only: the strings that [trim] empties. *)
Definition whitespaceOnly (s : jsstring) : bool := forallb isSpace s.

(** The first unit of [s], if any, is no digit, dot or white space. *)
Definition HeadClean (s : jsstring) : Prop :=
  forall c rest, s = c :: rest -> isNumbering c = false.

(** The last unit of [s], if any, is no digit, dot or white space. *)
Definition LastClean (s : jsstring) : Prop :=
  forall pre c, s = pre ++ [c] -> isNumbering c = false.

(** ** Patterns *)

(** [Q] holds of every unit that a class of the pattern accepts. *)
Definition Within (Q : N -> Prop) (p : pattern) : Prop :=
  Forall (fun a => forall c, cls a c = true -> Q c) p.

(** A continuation of the matcher that leaves a suffix of its input, the
    units before it satisfying [Q]. *)
Definition Consumes (Q : N -> Prop) (k : jsstring -> option jsstring) : Prop :=
  forall s r, k s = Some r -> exists pre, s = pre ++ r /\ Forall Q pre.

(** A pattern that cannot match without taking a digit, a dot or a white
    space first. *)
Definition StartsWithNumbering (p : pattern) : Prop :=
  match p with
  | [] => False
  | a :: _ => rep a <> Star /\ forall c, cls a c = true -> isNumbering c = true
  end.

(** ** Text of the segments *)

(** The units of a text that are no digit, dot or white space, in order. *)
Definition content (s : jsstring) : jsstring :=
  filter (fun c => negb (isNumbering c)) s.

(** What the conversion keeps of the text of a segment of the reply.  The
    cleaned text has no numbering at either end, and the same units that
    are no digit, dot or white space as the original, in the same order.
    When the original is a body surrounded by digits, dots and white space
    only, the body having clean ends and neither a numbered line
    ([/\n\d+\.\s*/]) nor an isolated number ([/\s+\d+\s+/]) inside, the
    cleaned text is the body, unchanged.  The cleaned text is kept when it
    has at least 3 units, and the original text is kept otherwise; what is
    kept is empty only if the original text is. *)
Definition TextKept (s : EnhancedSegment) : Prop :=
  let cleaned := cleanSegmentText (text s) in
  HeadClean cleaned /\ LastClean cleaned
  /\ content cleaned = content (text s)
  /\ (forall pre body post,
        text s = pre ++ body ++ post ->
        Forall (fun c => isNumbering c = true) pre ->
        Forall (fun c => isNumbering c = true) post ->
        body <> [] -> HeadClean body -> LastClean body ->
        test re_list_number false body = false ->
        test re_isolated_number false body = false ->
        cleaned = body)
  /\ ((List.length cleaned < 3)%nat -> segmentText s = text s)
  /\ ((3 <= List.length cleaned)%nat -> segmentText s = cleaned)
  /\ (segmentText s = [] -> text s = []).

(** ** Timeline *)

(** The lists on which the timeline is assembled: the results of
    [analyzeTextEnvironments], of [analyzeTextLocally], and of the
    assembly itself on any list of segments. *)
Inductive Assembled : list EnvironmentDetection -> Prop :=
| assembled_remote text outcome : Assembled (analyzeTextEnvironments text outcome)
| assembled_local text : Assembled (analyzeTextLocally text)
| assembled_any results : Assembled (addTiming results).

(** [b] comes right after [a]: its start time is given by the recurrence,
    on the duration and the transition that [calculateTiming] gave to [a]. *)
Definition Follows (a b : EnvironmentDetection) : Prop :=
  let timing := calculateTiming (segment a) (speechRate a) in
  exists start,
    startTime a = Some start
    /\ duration a = Some (estimatedDuration timing)
    /\ transition a = Some {| trans_type := transitionType timing;
                              trans_duration := transitionDuration timing |}
    /\ startTime b =
       Some (match transitionType timing with
             | crossfade => start + estimatedDuration timing - transitionDuration timing
             | _ => start + estimatedDuration timing
             end).

(** The start times never go back from a segment to the next. *)
Definition NonDecreasing (out : list EnvironmentDetection) : Prop :=
  forall k a b sa sb,
    nth_error out k = Some a -> nth_error out (S k) = Some b ->
    startTime a = Some sa -> startTime b = Some sb -> sa <= sb.

(** ** Speech rate *)

(** [segment.elevenlabsParams.speed], when it is there. *)
Definition speedField (d : EnvironmentDetection) : option jsstring :=
  match elevenlabsParams d with
  | Some params => speed params
  | None => None
  end.

(** The [speed] field of [d] reads as a percentage of at most 35. *)
Definition SpeedAtMost35 (d : EnvironmentDetection) : Prop :=
  exists s n,
    speedField d = Some s
    /\ parseInt (replaceString s (lit "%") []) = Some n
    /\ (n <= 35)%Z.

(** The lower ends of the rate ranges that the prompt of
    [analyzeTextWithGrok] gives for the four vocal types
    (18-22%, 22-26%, 26-32%, 32-35%). *)
Definition tierFloor (vocalType : jsstring) : option Z :=
  if vocalType === "murmure" then Some 18%Z
  else if vocalType === "sensuel" then Some 22%Z
  else if vocalType === "excité" then Some 26%Z
  else if vocalType === "jouissance" then Some 32%Z
  else None.

(** What the conversion of a segment writes in [speed], and what
    [generateVoiceWithEnvironment] makes of it. *)
Definition SpeedOutcome (d : EnvironmentDetection) : Prop :=
  (speedField d = Some (lit "25%") /\ prosodySpeed d = percent (Some 25%Z))
  \/ (speedField d = Some (lit "35%") /\ prosodySpeed d = percent (Some 35%Z))
  \/ (speedField d = Some (lit "45%") /\ prosodySpeed d = percent (Some 35%Z))
  \/ (speedField d = Some (lit "55%") /\ prosodySpeed d = percent (Some 35%Z)).

(** ** Failure of the request *)

(** The request did not give a payload: [fetch] rejected, the status is not
    a success, or no JSON could be read from the answer. *)
Definition RequestFails (outcome : FetchOutcome) : Prop :=
  outcome = NetworkFailure
  \/ exists response,
       outcome = Responded response
       /\ (ok response = false \/ parsedResponse response = None).

(** The parameters of the default segment, as [analyzeTextEnvironments]
    hands them on. *)
Definition CarriesDefaults (d : EnvironmentDetection) : Prop :=
  environment d = lit "chambre"
  /\ soundEffects d = [lit "mid-nights-sound-291477.mp3";
                       lit "main-door-opening-closing-38280.mp3"]
  /\ emotionalTone d = lit "sensuel"
  /\ speechRate d = lit "lent"
  /\ volume d = lit "normal"
  /\ elevenlabsParams d = Some {| stability := 0.65; similarity_boost := 0.8;
                                  speed := Some (lit "35%"); pitch_shift := Some (-5) |}
  /\ expressionDetails d = Some {| breathing := lit "légère"; sounds := [];
                                   expr_duration := 500 |}.

(** ** Sounds *)

(** The sounds of the first entry of the catalog. *)
Definition plageSounds : list jsstring :=
  [lit "ocean-waves-112906.mp3"; lit "sea-and-seagull-wave-5932.mp3"].

End Properties.

(* ================================================================== *)
(** * Sample replies and texts *)
(* ================================================================== *)

Module Examples.

Import JsString Grok.
Local Open Scope Q_scope.

(** A segment of the reply, of vocal type [normal] and intensity 50. *)
Definition plainSegment (t rhythm : string) : EnhancedSegment :=
  {| text := lit t;
     vocal := {| intensity := 50; vocal_type := lit "normal"; rhythm := lit rhythm;
                 pitch := 0 |};
     expressions := {| breathing := lit "légère"; sounds := []; expr_duration := 500 |};
     elevenlabs := {| stability := 0.5; similarity_boost := 0.8;
                      speed := None; pitch_shift := None |};
     seg_environment := None |}.

(** A segment of the reply with its vocal type, rhythm and intensity. *)
Definition typedSegment (t vocalType rhythm : string) (i : Q) : EnhancedSegment :=
  {| text := lit t;
     vocal := {| intensity := i; vocal_type := lit vocalType; rhythm := lit rhythm;
                 pitch := 0 |};
     expressions := {| breathing := lit "légère"; sounds := []; expr_duration := 500 |};
     elevenlabs := {| stability := 0.2; similarity_boost := 0.95;
                      speed := Some (lit "34%"); pitch_shift := None |};
     seg_environment := None |}.

(** A successful response whose JSON holds these segments. *)
Definition replied (segments : list EnhancedSegment) : FetchOutcome :=
  Responded {| ok := true; status := 200; statusText := lit "OK";
               parsedResponse := Some (Segments segments) |}.

(** A response with status 500. *)
Definition serverError : FetchOutcome :=
  Responded {| ok := false; status := 500; statusText := lit "Internal Server Error";
               parsedResponse := None |}.

(** A reply of two segments: two words with an ellipsis between them, said
    fast, then one word. *)
Definition shortCrossfade : FetchOutcome :=
  replied [plainSegment "Oh... oui" "rapide"; plainSegment "Encore" "lent"].

(** Two paragraphs, the first one a single word followed by an ellipsis. *)
Definition twoParagraphs : jsstring := lit "Oui..." ++ [10%N; 10%N] ++ lit "Encore".

(** A cry at intensity 60, then a cry and a plain segment at intensity 95. *)
Definition cries : FetchOutcome :=
  replied [typedSegment "Oui" "cri" "lent" 60;
           typedSegment "Encore" "cri" "lent" 95;
           typedSegment "Viens" "normal" "lent" 95].

(** One segment said fast, one climax segment said very slowly. *)
Definition fastAndSlow : FetchOutcome :=
  replied [typedSegment "Viens" "sensuel" "rapide" 50;
           typedSegment "Oui" "jouissance" "très lent" 95].

(** A numbered sentence, and a segment that is nothing but a number. *)
Definition numbered : FetchOutcome :=
  replied [plainSegment "1. Bonjour 2." "lent"; plainSegment "12" "lent"].

(** A reply whose only segment has an empty text. *)
Definition emptySegment : FetchOutcome := replied [plainSegment "" "lent"].

End Examples.

(* ================================================================== *)
(** * The adjustments of the voice settings, as specified *)
(* ================================================================== *)

Module VoiceProperties.

Import JsString VoiceSettings.
Local Open Scope Q_scope.

(** The adjustment of the stability as the specification writes it, with
    the intensity divided by 100. *)
Definition stabilityBySpec (base intensity : Q) : Q :=
  Qmax 0.15 (Qmin 0.75 (base * (1 - intensity / 100 * 0.3))).

(** The adjustment of the expressiveness as the specification writes it. *)
Definition expressivenessBySpec (base progression : Q) : Q :=
  Qmax 0.75 (Qmin 0.98 (base + progression * 0.15)).

(** [getVoiceSettings] computes the stability by the specified formula, on
    the intensity of the analysis. *)
Definition StabilityAsSpecified : Prop :=
  forall emotion analysis,
    exists base s,
      stability (settingsFor emotion) = Num base
      /\ stability (getVoiceSettings emotion analysis) = Num s
      /\ s == stabilityBySpec base (intensity analysis).

(** The two settings are within their bounds. *)
Definition WithinBounds (settings : VoiceSettings) : Prop :=
  exists s b,
    stability settings = Num s /\ similarity_boost settings = Num b
    /\ 0.15 <= s <= 0.75 /\ 0.75 <= b <= 0.98.

(** The bounds hold for every label, as the specification writes it. *)
Definition BoundedForEveryLabel : Prop :=
  forall emotion analysis, WithinBounds (getVoiceSettings emotion analysis).

(** The base that [getVoiceSettings] adjusts for a label: the entry of the
    table under this key, or the entry of [sensuel] when the table has no
    such key. *)
Definition BaseOf (emotion : jsstring) (base : VoiceSettings) : Prop :=
  In (emotion, base) baseSettings
  \/ ((forall settings, ~ In (emotion, settings) baseSettings) /\ base = sensuel).

End VoiceProperties.

(* ================================================================== *)
(** * More of the services *)
(* ================================================================== *)

(** ** grokService.ts: the JSON text of the reply, before it is parsed *)

Module GrokJson.

Import JsString Grok.

(** [/^\s*[\d\.\s]*/], without its anchor *)
Definition re_json_leading : pattern := [Atom isSpace Star; Atom isNumbering Star].

(** [/[\d\.\s]*\s*$/], without its anchor *)
Definition re_json_trailing : pattern := [Atom isNumbering Star; Atom isSpace Star].

(** [/^\d+\.\s*/], without its anchor *)
Definition re_line_number : pattern :=
  [Atom isDigit Plus; Atom (isChar ".") One; Atom isSpace Star].

(** The four replacements and the [trim] applied to [jsonContent]
    (lines 224-229). *)
Definition cleanJsonContent (jsonContent : jsstring) : jsstring :=
  let t := replaceAtStart re_json_leading false [] jsonContent in
  let t := replaceFirst re_json_trailing true [] t in
  let t := replaceAll re_list_number [10%N] t in
  let t := replaceAtStart re_line_number false [] t in
  trim t.

(** The text handed to [JSON.parse] (lines 224-234): the cleaned content,
    wrapped as the [segments] of an object when it does not start with a
    brace. *)
Definition jsonToParse (jsonContent : jsstring) : jsstring :=
  let cleaned := cleanJsonContent jsonContent in
  if startsWith cleaned (lit "{") then cleaned
  else lit "{" ++ [34%N] ++ lit "segments" ++ [34%N] ++ lit ":[" ++ cleaned ++ lit "]}".

End GrokJson.

(** ** elevenlabs/voiceSettings.ts: calculateEmotionTransitionDuration *)

Module EmotionTransitions.

Import JsString.
Local Open Scope Z_scope.

(** What [table[key]] finds in an object literal: the value of an own key,
    a member that every object inherits, or nothing ([undefined]). *)
Inductive Found (A : Type) :=
| Own (value : A)
| Inherited
| Absent.

Arguments Inherited {A}.
Arguments Absent {A}.

Fixpoint get (A : Type) (key : jsstring) (table : list (jsstring * A)) : Found A :=
  match table with
  | [] => if inheritedMember key then Inherited else Absent
  | (k, v) :: rest => if eqb key k then Own v else get key rest
  end.

Definition transitionMap : list (jsstring * list (jsstring * Z)) :=
  [ (lit "sensuel",
      [ (lit "excite", 600); (lit "jouissance", 800); (lit "murmure", 400);
        (lit "intense", 700); (lit "doux", 300) ]);
    (lit "excite",
      [ (lit "sensuel", 600); (lit "jouissance", 400); (lit "murmure", 700);
        (lit "intense", 500); (lit "doux", 800) ]);
    (lit "jouissance",
      [ (lit "sensuel", 800); (lit "excite", 400); (lit "murmure", 900);
        (lit "intense", 300); (lit "doux", 1000) ]);
    (lit "murmure",
      [ (lit "sensuel", 400); (lit "excite", 700); (lit "jouissance", 900);
        (lit "intense", 800); (lit "doux", 300) ]);
    (lit "intense",
      [ (lit "sensuel", 700); (lit "excite", 500); (lit "jouissance", 300);
        (lit "murmure", 800); (lit "doux", 900) ]);
    (lit "doux",
      [ (lit "sensuel", 300); (lit "excite", 800); (lit "jouissance", 1000);
        (lit "murmure", 300); (lit "intense", 900) ]) ].

(** What the function returns: a duration of the table or the default, in
    milliseconds; or, when one of the two lookups reaches a member that
    every object inherits, whatever this member holds, which is no duration
    of the table and is left undetermined here. *)
Inductive Returned :=
| Milliseconds (ms : Z)
| FromPrototype.

(** [transitionMap[currentEmotion]?.[nextEmotion] || 500] *)
Definition calculateEmotionTransitionDuration (currentEmotion nextEmotion : jsstring)
  : Returned :=
  match get currentEmotion transitionMap with
  | Own row =>
      match get nextEmotion row with
      | Own ms => Milliseconds (if ms =? 0 then 500 else ms)
      | Inherited => FromPrototype
      | Absent => Milliseconds 500
      end
  | Inherited => FromPrototype
  | Absent => Milliseconds 500
  end.

(** The six emotions of the table. *)
Definition emotions : list jsstring :=
  [lit "sensuel"; lit "excite"; lit "jouissance"; lit "murmure"; lit "intense"; lit "doux"].

Definition knownEmotion (e : jsstring) : bool := existsb (eqb e) emotions.

End EmotionTransitions.

(** ** elevenLabsAPI.ts: generateVoice and the voice settings of a segment *)

Module ElevenLabsVoice.

Import JsString Grok.

(** [[.!?…]] *)
Definition isSentenceEnd (c : N) : bool := isTerminal c || (c =? 8230)%N.

(** [/[.!?…]+/] *)
Definition re_sentence_end : pattern := [Atom isSentenceEnd Plus].

(** The segments of [generateVoice]:
    [text.split(/[.!?…]+/).filter(s => s.trim().length > 0)]. *)
Definition voiceSegments (text : jsstring) : list jsstring :=
  filter (fun s => (0 <? List.length (trim s))%nat) (split re_sentence_end text).

(** The [voiceSettings] that [generateVoiceWithEnvironment] sends for a
    segment: those of [getVoiceSettings] on the local analysis of the
    segment, replaced by the parameters of the segment when it has some.
    The analysis comes from [analyzeText], a function of
    [elevenlabs/index], and is a parameter here. *)
Definition voiceSettingsSent (segment : EnvironmentDetection)
    (analysis : VoiceSettings.TextAnalysis) : VoiceSettings.VoiceSettings :=
  let voiceSettings := VoiceSettings.getVoiceSettings (emotionalTone segment) analysis in
  match elevenlabsParams segment with
  | Some params =>
      {| VoiceSettings.stability := stability params;
         VoiceSettings.similarity_boost := similarity_boost params |}
  | None => voiceSettings
  end.

(** The pause written before the text of segment [i]: 100 ms before the
    first one, 150 ms after a segment that ends with [.], [!], [?] or the
    ellipsis character, none otherwise.  [prevSegment] is [None] for the
    first segment. *)
Definition breakBefore (i : nat) (prevSegment : option EnvironmentDetection) : option Z :=
  if (i =? 0)%nat then Some 100%Z
  else
    match prevSegment with
    | Some prev =>
        if test [Atom isSentenceEnd One] true (segment prev) then Some 150%Z else None
    | None => None
    end.

End ElevenLabsVoice.

(** ** elevenLabsAPI.ts: the requests of generateVoice and of
    generateVoiceWithEnvironment

    The requests and the functions of [elevenlabs/index] that prepare them
    ([analyzeText], [addBreathingAndPauses], [generateSegmentSSML]) are
    outside the model; what the two functions do with their outcomes is
    kept.  An audio is the list of the bodies handed to [new Blob]. *)

Module VoiceGeneration.

Import JsString Grok ElevenLabsVoice.

Section Requests.

(** [response.data] *)
Variable Blob : Type.

(** The work on one segment: a function of [elevenlabs/index] raises before
    the request, the request fails, or it answers. *)
Inductive Attempt :=
| Raised
| Rejected
| Resolved (data : Blob).

Inductive VoiceError :=
| SimpleVoiceFailed    (* Error('Échec de la génération de la voix') *)
| NoAudioGenerated     (* Error('Aucun segment audio n'a été généré') *)
| HelperError.         (* what a function of elevenlabs/index raised *)

(** A run of [generateVoice]: whether the steps before the loop return, and
    the attempt on the k-th segment. *)
Record SimpleRun := {
  analysisReturns : bool;
  simpleAttempt : nat -> Attempt
}.

(** The loop of [generateVoice]: nothing is caught in it, so the first
    attempt that does not answer ends it. *)
Fixpoint simpleLoop (segments : list jsstring) (attempt : nat -> Attempt) (k : nat)
    (audioBlobs : list Blob) : option (list Blob) :=
  match segments with
  | [] => Some audioBlobs
  | _ :: rest =>
      match attempt k with
      | Resolved data => simpleLoop rest attempt (S k) (audioBlobs ++ [data])
      | Raised | Rejected => None
      end
  end.

Definition generateVoice (text : jsstring) (run : SimpleRun) : VoiceError + list Blob :=
  if analysisReturns run then
    match simpleLoop (voiceSegments text) (simpleAttempt run) 0 [] with
    | Some audioBlobs => inr audioBlobs
    | None => inl SimpleVoiceFailed
    end
  else inl SimpleVoiceFailed.

(** The loop of [generateVoiceWithEnvironment]: a request that fails is
    caught and the loop goes on; what is raised before the request leaves
    the loop. *)
Fixpoint environmentLoop (segments : list EnvironmentDetection) (attempt : nat -> Attempt)
    (i : nat) (audioBlobs : list Blob) : VoiceError + list Blob :=
  match segments with
  | [] => inr audioBlobs
  | _ :: rest =>
      match attempt i with
      | Raised => inl HelperError
      | Rejected => environmentLoop rest attempt (S i) audioBlobs
      | Resolved data => environmentLoop rest attempt (S i) (audioBlobs ++ [data])
      end
  end.

(** The [try] block, after the analysis. *)
Definition environmentBody (segments : list EnvironmentDetection)
    (attempt : nat -> Attempt) : VoiceError + list Blob :=
  match environmentLoop segments attempt 0 [] with
  | inr [] => inl NoAudioGenerated
  | inr audioBlobs => inr audioBlobs
  | inl error => inl error
  end.

(** [outcome] is the outcome of the request of the analysis, [attempt] the
    attempts on its segments, [simple] the run of [generateVoice] in the
    [catch] branch, whose own error is dropped for the first one. *)
Definition generateVoiceWithEnvironment (text : jsstring) (outcome : FetchOutcome)
    (attempt : nat -> Attempt) (simple : SimpleRun) : VoiceError + list Blob :=
  match environmentBody (analyzeTextEnvironments text outcome) attempt with
  | inr audio => inr audio
  | inl error =>
      match generateVoice text simple with
      | inr audio => inr audio
      | inl _fallbackError => inl error
      end
  end.

End Requests.

Arguments Raised {Blob}.
Arguments Rejected {Blob}.

End VoiceGeneration.
(** ** Statements about them *)

Module MoreProperties.

Import JsString Grok ElevenLabsAPI Properties.
Local Open Scope Q_scope.

(** [text.trim().split(/\s+/).length], the number of words that
    [calculateTiming] counts. *)
Definition wordCount (text : jsstring) : nat :=
  List.length (split re_spaces (trim text)).

(** The five environments that [analyzeTextLocally] can name. *)
Definition localEnvironments : list jsstring :=
  [lit "plage"; lit "forêt"; lit "pluie"; lit "ville"; lit "chambre"].

(** What the local analysis puts in a segment besides its text and
    timing. *)
Definition LocalParameters (d : EnvironmentDetection) : Prop :=
  In (emotionalTone d) EmotionTransitions.emotions
  /\ In (environment d) localEnvironments
  /\ In (environment d, soundEffects d) environmentSounds
  /\ List.length (soundEffects d) = 2%nat
  /\ volume d = lit "normal"
  /\ speechRate d = lit "lent"
  /\ exists params,
       elevenlabsParams d = Some params
       /\ 0.3 <= stability params <= 0.8
       /\ 0.75 <= similarity_boost params <= 0.95
       /\ Qle_bool (stability params) 0.4
          = (emotionalTone d === "jouissance") || (emotionalTone d === "excite")
            || (emotionalTone d === "intense")
       /\ Qle_bool 0.9 (similarity_boost params) = Qle_bool (stability params) 0.4.

(** A text whose first and last units are no digit, dot or white space. *)
Definition cleanEnds (s : jsstring) : bool :=
  match s with
  | [] => false
  | x :: _ => negb (isNumbering x) && negb (isNumbering (last s x))
  end.

Definition notSpace (c : N) : bool := negb (isSpace c).

(** The bodies of the attempts that were answered, in order. *)
Fixpoint resolved (Blob : Type) (attempts : list (VoiceGeneration.Attempt Blob))
  : list Blob :=
  match attempts with
  | [] => []
  | VoiceGeneration.Resolved data :: rest => data :: resolved rest
  | _ :: rest => resolved rest
  end.

Definition isRaised (Blob : Type) (a : VoiceGeneration.Attempt Blob) : bool :=
  match a with VoiceGeneration.Raised => true | _ => false end.

(** Nothing to say: sentence ends and white space only. *)
Definition speechless (text : jsstring) : bool :=
  forallb (fun c => ElevenLabsVoice.isSentenceEnd c || isSpace c) text.

End MoreProperties.

(* ================================================================== *)
(** * Proofs *)
(* ================================================================== *)

(** ** Strings: equality, occurrence, last unit *)

Module JsStringFacts.

Import JsString.
Local Open Scope N_scope.

Lemma eqb_eq (a b : jsstring) : eqb a b = true <-> a = b.
Proof.
  revert b; induction a as [|x a IH]; intros [|y b]; simpl; split; intro H;
    try reflexivity; try discriminate.
  - apply andb_true_iff in H as [Hx Hab].
    apply N.eqb_eq in Hx; apply IH in Hab; congruence.
  - injection H as -> ->. rewrite N.eqb_refl. simpl. now apply IH.
Qed.

Lemma eqb_refl (a : jsstring) : eqb a a = true.
Proof. now apply eqb_eq. Qed.

Lemma eqb_neq (a b : jsstring) : eqb a b = false <-> a <> b.
Proof.
  split; intro H.
  - intro E. apply eqb_eq in E. congruence.
  - destruct (eqb a b) eqn:E; [|reflexivity]. apply eqb_eq in E. contradiction.
Qed.

Lemma startsWith_spec (s pre : jsstring) :
  startsWith s pre = true <-> exists post, s = pre ++ post.
Proof.
  revert s; induction pre as [|p pre IH]; intros s; simpl.
  - split; [intros _; now exists s | reflexivity].
  - destruct s as [|x s].
    + split; [discriminate | intros [post H]; discriminate].
    + rewrite andb_true_iff, N.eqb_eq, IH. split.
      * intros [-> [post ->]]. now exists post.
      * intros [post H]. injection H as -> ->. split; [reflexivity | now exists post].
Qed.

Lemma includes_spec (s sub : jsstring) :
  includes s sub = true <-> exists pre post, s = pre ++ sub ++ post.
Proof.
  induction s as [|x s IH]; simpl.
  - rewrite orb_false_r, startsWith_spec. split.
    + intros [post H]. now exists [], post.
    + intros [pre [post H]]. destruct pre; [now exists post|discriminate].
  - rewrite orb_true_iff, startsWith_spec, IH. split.
    + intros [[post H] | [pre [post H]]].
      * now exists [], post.
      * exists (x :: pre), post. simpl. now rewrite H.
    + intros [[|y pre] [post H]].
      * left. now exists post.
      * right. injection H as -> ->. now exists pre, post.
Qed.

Lemma isTerminal_spec (c : N) :
  isTerminal c = true <-> (c = 46 \/ c = 33 \/ c = 63).
Proof.
  unfold isTerminal, isChar. rewrite !orb_true_iff, !N.eqb_eq. simpl. tauto.
Qed.

(** [/[.!?]$/] succeeds exactly on the strings whose last unit is in the
    class. *)
Lemma test_terminal_spec (s : jsstring) :
  test [Atom isTerminal One] true s = true
  <-> exists pre c, s = pre ++ [c] /\ isTerminal c = true.
Proof.
  induction s as [|x s IH].
  - simpl. split; [discriminate|]. intros [pre [c [H _]]]. now destruct pre.
  - cbn [test matchHere rep cls]. destruct (isTerminal x) eqn:Hx.
    + destruct s as [|y s].
      * split; [|reflexivity]. intros _. now exists [], x.
      * rewrite IH. split.
        -- intros [pre [c [H Hc]]]. exists (x :: pre), c. simpl. now rewrite H.
        -- intros [[|z pre] [c [H Hc]]]; [discriminate|].
           injection H as -> H. now exists pre, c.
    + rewrite IH. split.
      * intros [pre [c [H Hc]]]. exists (x :: pre), c. simpl. now rewrite H.
      * intros [[|z pre] [c [H Hc]]].
        -- injection H as -> ->. congruence.
        -- injection H as -> H. now exists pre, c.
Qed.

End JsStringFacts.

(** ** The matcher: what a match consumes, what a replacement preserves *)

Module RegexFacts.

Import JsString Grok Properties Examples JsStringFacts.
Local Open Scope N_scope.

Section Consumed.
(** [Q] holds of every unit that a class of the pattern accepts. *)
Variable Q : N -> Prop.

Lemma star_consumes k c :
  Consumes Q k -> (forall x, c x = true -> Q x) -> Consumes Q (star k c).
Proof.
  intros Hk Hc s. induction s as [|x s IH]; intros r H; simpl in H.
  - now apply Hk.
  - destruct (c x) eqn:Hx; [|now apply Hk].
    destruct (star k c s) as [r'|] eqn:Hs; [|now apply Hk].
    injection H as <-. destruct (IH r' eq_refl) as [pre [-> Hpre]].
    exists (x :: pre). split; [reflexivity|]. constructor; auto.
Qed.

Lemma matchHere_consumes p eol : Within Q p -> Consumes Q (matchHere p eol).
Proof.
  induction p as [|a p IH]; intros Hp s r H.
  - simpl in H. destruct eol.
    + destruct s; [|discriminate]. injection H as <-. now exists [].
    + injection H as <-. now exists [].
  - inversion Hp as [|? ? Ha Hp']; subst. specialize (IH Hp').
    cbn [matchHere] in H. destruct (rep a).
    + destruct s as [|x s]; [discriminate|].
      destruct (cls a x) eqn:Hx; [|discriminate].
      destruct (IH _ _ H) as [pre [-> Hpre]].
      exists (x :: pre). split; [reflexivity|]. constructor; auto.
    + eapply star_consumes; eauto.
    + destruct s as [|x s]; [discriminate|].
      destruct (cls a x) eqn:Hx; [|discriminate].
      destruct (@star_consumes _ (cls a) IH Ha _ _ H) as [pre [-> Hpre]].
      exists (x :: pre). split; [reflexivity|]. constructor; auto.
Qed.
End Consumed.

Lemma Within_True p : Within (fun _ => True) p.
Proof. apply Forall_forall. intros a _ c _. exact I. Qed.

(** What is left after a match is a suffix of the input. *)
Lemma matchHere_suffix p eol s r :
  matchHere p eol s = Some r -> exists pre, s = pre ++ r.
Proof.
  intros H. destruct (@matchHere_consumes _ p eol (Within_True p) s r H) as [pre [E _]].
  now exists pre.
Qed.

Lemma matchHere_length p eol s r :
  matchHere p eol s = Some r -> (List.length r <= List.length s)%nat.
Proof.
  intros H. apply matchHere_suffix in H as [pre ->]. rewrite length_app. lia.
Qed.

Section Preserved.
Variable P : N -> Prop.

Lemma matchHere_Forall p eol s r :
  matchHere p eol s = Some r -> Forall P s -> Forall P r.
Proof.
  intros H Hs. apply matchHere_suffix in H as [pre ->].
  now apply Forall_app in Hs.
Qed.

Lemma replaceAtStart_Forall p eol r s :
  Forall P r -> Forall P s -> Forall P (replaceAtStart p eol r s).
Proof.
  intros Hr Hs. unfold replaceAtStart.
  destruct (matchHere p eol s) eqn:E; [|assumption].
  apply Forall_app. split; [assumption | eapply matchHere_Forall; eauto].
Qed.

Lemma replaceFirst_Forall p eol r s :
  Forall P r -> Forall P s -> Forall P (replaceFirst p eol r s).
Proof.
  intros Hr. induction s as [|x s IH]; intros Hs; cbn [replaceFirst].
  - destruct (matchHere p eol []) eqn:E; [|constructor].
    apply Forall_app. split; [assumption | eapply matchHere_Forall; eauto].
  - destruct (matchHere p eol (x :: s)) eqn:E.
    + apply Forall_app. split; [assumption | eapply matchHere_Forall; eauto].
    + inversion Hs; subst. constructor; auto.
Qed.

Lemma replaceAll_from_Forall p r s :
  Forall P r -> Forall P s -> forall skip, Forall P (replaceAll_from p r skip s).
Proof.
  intros Hr. induction s as [|x s IH]; intros Hs skip.
  - destruct skip; cbn [replaceAll_from]; [|constructor].
    destruct (matchHere p false []) as [rest|]; [|constructor].
    destruct (List.length [] - List.length rest)%nat; assumption.
  - inversion Hs as [|? ? Hx Hs']; subst.
    destruct skip; cbn [replaceAll_from]; [|now apply IH].
    destruct (matchHere p false (x :: s)) as [rest|].
    + destruct (List.length (x :: s) - List.length rest)%nat.
      * apply Forall_app. split; [assumption|]. constructor; auto.
      * apply Forall_app. split; auto.
    + constructor; auto.
Qed.

Lemma trimStart_Forall s : Forall P s -> Forall P (trimStart s).
Proof.
  induction s as [|x s IH]; intros Hs; simpl; [constructor|].
  destruct (isSpace x); [|assumption]. inversion Hs; auto.
Qed.

Lemma split_from_Forall p s : forall skip cur,
  Forall P s -> Forall P cur -> Forall (Forall P) (split_from p skip cur s).
Proof.
  induction s as [|x s IH]; intros skip cur Hs Hcur.
  - destruct skip; cbn [split_from]; repeat constructor; now apply Forall_rev.
  - inversion Hs as [|? ? Hx Hs']; subst.
    destruct skip; cbn [split_from]; [|now apply IH].
    destruct (matchHere p false (x :: s)) as [rest|].
    + destruct (List.length (x :: s) - List.length rest)%nat.
      * apply IH; auto.
      * constructor; [now apply Forall_rev | apply IH; auto].
    + apply IH; auto.
Qed.
End Preserved.

Lemma whitespaceOnly_Forall s :
  whitespaceOnly s = true <-> Forall (fun c => isSpace c = true) s.
Proof. unfold whitespaceOnly. rewrite forallb_forall, Forall_forall. reflexivity. Qed.

Lemma trimStart_whitespace s : whitespaceOnly s = true -> trimStart s = [].
Proof.
  unfold whitespaceOnly. induction s as [|x s IH]; simpl; [reflexivity|].
  intros H. apply andb_true_iff in H as [-> Hs]. now apply IH.
Qed.

Lemma trim_whitespace s : whitespaceOnly s = true -> trim s = [].
Proof. intros H. unfold trim, trimEnd. now rewrite (trimStart_whitespace _ H). Qed.

Lemma cleanSegmentText_whitespace s :
  whitespaceOnly s = true -> cleanSegmentText s = [].
Proof.
  intros H. unfold cleanSegmentText. apply trim_whitespace.
  apply whitespaceOnly_Forall. apply whitespaceOnly_Forall in H.
  apply replaceAll_from_Forall; [repeat constructor|].
  apply replaceAll_from_Forall; [repeat constructor|].
  apply replaceFirst_Forall; [constructor|].
  apply replaceAtStart_Forall; [constructor|].
  apply replaceAtStart_Forall; [constructor|]. assumption.
Qed.

End RegexFacts.

(** ** The cleaning of the text of a segment *)

Module CleaningFacts.

Import JsString Grok ElevenLabsAPI Properties Examples JsStringFacts RegexFacts.
Local Open Scope N_scope.

Lemma isSpace_isNumbering c : isSpace c = true -> isNumbering c = true.
Proof. intros H. unfold isNumbering. rewrite H. apply orb_true_r. Qed.

Lemma isDigit_isNumbering c : isDigit c = true -> isNumbering c = true.
Proof. intros H. unfold isNumbering. now rewrite H. Qed.

Lemma HeadClean_nil : HeadClean [].
Proof. intros c rest H. discriminate. Qed.

Lemma LastClean_nil : LastClean [].
Proof. intros pre c H. now destruct pre. Qed.

Lemma LastClean_cons x s : s <> [] -> LastClean s -> LastClean (x :: s).
Proof.
  intros Hne Hs pre c H. destruct pre as [|y pre].
  - injection H as -> ->. congruence.
  - injection H as -> ->. now apply (Hs pre c).
Qed.

(** ** The matcher with a continuation that always succeeds *)

Lemma star_total k c s :
  (forall s', k s' = Some s') -> exists r, star k c s = Some r.
Proof.
  intros Hk. induction s as [|x s [r IH]]; simpl.
  - now exists [].
  - destruct (c x); [rewrite IH|]; eauto.
Qed.

Lemma star_greedy k c s r :
  (forall s', k s' = Some s') -> star k c s = Some r ->
  forall y rest, r = y :: rest -> c y = false.
Proof.
  intros Hk. induction s as [|x s IH]; simpl; intros H y rest E.
  - rewrite Hk in H. injection H as <-. discriminate.
  - destruct (c x) eqn:Hx.
    + destruct (@star_total k c s Hk) as [r' Hr']. rewrite Hr' in H, IH.
      injection H as <-. now apply (IH eq_refl y rest).
    + rewrite Hk in H. injection H as <-. injection E as <- _. assumption.
Qed.

Lemma star_from k c s r : star k c s = Some r -> exists s', k s' = Some r.
Proof.
  induction s as [|x s IH]; simpl; intros H; [eauto|].
  destruct (c x); [|eauto].
  destruct (star k c s) as [r'|]; [|eauto].
  injection H as <-. now apply IH.
Qed.

(** ** [/^\s*[\d\.\s]+/] *)

Lemma leading_numbering_matches x t :
  isNumbering x = true ->
  exists r, matchHere re_leading_numbering false (x :: t) = Some r.
Proof.
  intros Hx. unfold re_leading_numbering. cbn [matchHere rep cls star].
  assert (Hk : exists r, matchHere [Atom isNumbering Plus] false (x :: t) = Some r).
  { cbn [matchHere rep cls]. rewrite Hx. now apply star_total. }
  destruct (isSpace x); [|exact Hk].
  destruct (star _ isSpace t); [eauto | exact Hk].
Qed.

Lemma leading_numbering_rest s r :
  matchHere re_leading_numbering false s = Some r -> HeadClean r.
Proof.
  unfold re_leading_numbering. cbn [matchHere rep cls]. intros H.
  apply star_from in H as [s' H].
  destruct s' as [|x t]; [discriminate|]. cbn [matchHere rep cls] in H.
  destruct (isNumbering x); [|discriminate].
  intros c rest E. eapply star_greedy; [|exact H|exact E]. reflexivity.
Qed.

Lemma replace_leading_numbering s :
  HeadClean (replaceAtStart re_leading_numbering false [] s).
Proof.
  unfold replaceAtStart.
  destruct (matchHere re_leading_numbering false s) as [r|] eqn:E.
  - now apply leading_numbering_rest in E.
  - intros c rest ->. destruct (isNumbering c) eqn:Hc; [|reflexivity].
    destruct (@leading_numbering_matches c rest Hc) as [r Hr]. congruence.
Qed.

(** ** [/[\d\.\s]+\s*$/] *)

Lemma star_eol k c s r :
  (forall s' r', k s' = Some r' -> r' = []) -> star k c s = Some r -> r = [].
Proof.
  intros Hk H. apply star_from in H as [s' H]. eauto.
Qed.

Lemma matchHere_eol p : forall s r, matchHere p true s = Some r -> r = [].
Proof.
  induction p as [|a p IH]; intros s r H; cbn [matchHere] in H.
  - destruct s; [now injection H|discriminate].
  - destruct (rep a).
    + destruct s as [|x s]; [discriminate|]. destruct (cls a x); [eauto|discriminate].
    + eapply star_eol; eauto.
    + destruct s as [|x s]; [discriminate|].
      destruct (cls a x); [eapply star_eol; eauto|discriminate].
Qed.

Lemma Within_trailing : Within (fun c => isNumbering c = true) re_trailing_numbering.
Proof.
  repeat constructor; cbn [cls]; auto using isSpace_isNumbering.
Qed.

Lemma trailing_match_inv s r :
  matchHere re_trailing_numbering true s = Some r ->
  r = [] /\ forallb isNumbering s = true.
Proof.
  intros H. pose proof (matchHere_eol _ _ H) as ->. split; [reflexivity|].
  destruct (@matchHere_consumes _ _ true Within_trailing s [] H) as [pre [-> Hpre]].
  rewrite app_nil_r. apply forallb_forall. now apply Forall_forall.
Qed.

Lemma star_all_numbering s :
  forallb isNumbering s = true ->
  star (matchHere [Atom isSpace Star] true) isNumbering s = Some [].
Proof.
  induction s as [|x s IH]; cbn [star forallb]; [reflexivity|].
  intros H. apply andb_true_iff in H as [-> Hs]. now rewrite IH.
Qed.

Lemma trailing_match_all x s :
  forallb isNumbering (x :: s) = true ->
  matchHere re_trailing_numbering true (x :: s) = Some [].
Proof.
  simpl. intros H. apply andb_true_iff in H as [Hx Hs].
  unfold re_trailing_numbering. cbn [matchHere rep cls]. rewrite Hx.
  now apply star_all_numbering.
Qed.

Lemma replaceFirst_nil_inv p eol s :
  replaceFirst p eol [] s = [] -> s = [] \/ exists r, matchHere p eol s = Some r.
Proof.
  destruct s as [|x s]; [now left|]. cbn [replaceFirst].
  destruct (matchHere p eol (x :: s)) as [r|]; [eauto|discriminate].
Qed.

Lemma replace_trailing_last s :
  LastClean (replaceFirst re_trailing_numbering true [] s).
Proof.
  induction s as [|x s IH]; cbn [replaceFirst].
  - cbn. apply LastClean_nil.
  - destruct (matchHere re_trailing_numbering true (x :: s)) as [r|] eqn:E.
    + apply trailing_match_inv in E as [-> _]. apply LastClean_nil.
    + destruct (replaceFirst re_trailing_numbering true [] s) as [|y out] eqn:Hout.
      * intros pre c H. destruct pre as [|z pre]; [|now destruct pre].
        injection H as <-.
        destruct (isNumbering x) eqn:Hx; [|reflexivity].
        assert (Hall : forallb isNumbering (x :: s) = true).
        { simpl. rewrite Hx. simpl.
          apply replaceFirst_nil_inv in Hout as [->|[r Hr]]; [reflexivity|].
          now apply trailing_match_inv in Hr. }
        apply trailing_match_all in Hall. congruence.
      * apply LastClean_cons; [discriminate | exact IH].
Qed.

Lemma replaceFirst_prefix p s :
  exists post, s = replaceFirst p true [] s ++ post.
Proof.
  induction s as [|x s [post IH]]; cbn [replaceFirst].
  - destruct (matchHere p true []) as [r|] eqn:E; [|now exists []].
    apply matchHere_eol in E as ->. now exists [].
  - destruct (matchHere p true (x :: s)) as [r|] eqn:E.
    + apply matchHere_eol in E as ->. now exists (x :: s).
    + exists post. simpl. now rewrite <- IH.
Qed.

Lemma replace_trailing_head s :
  HeadClean s -> HeadClean (replaceFirst re_trailing_numbering true [] s).
Proof.
  intros Hs c rest E.
  destruct (replaceFirst_prefix re_trailing_numbering s) as [post Hpost].
  rewrite E in Hpost. now apply (Hs c (rest ++ post)).
Qed.

(** ** The two global replacements *)

Lemma matchHere_needs_numbering p eol s :
  StartsWithNumbering p -> HeadClean s -> matchHere p eol s = None.
Proof.
  destruct p as [|a p]; [contradiction|]. intros [Hrep Hcls] Hs.
  cbn [matchHere]. destruct s as [|x t].
  - destruct (rep a); [reflexivity|contradiction|reflexivity].
  - assert (Hx : cls a x = false).
    { destruct (cls a x) eqn:E; [|reflexivity].
      apply Hcls in E. now rewrite (Hs x t eq_refl) in E. }
    rewrite Hx. destruct (rep a); [reflexivity|contradiction|reflexivity].
Qed.

Lemma replaceAll_head p r s :
  StartsWithNumbering p -> HeadClean s -> HeadClean (replaceAll p r s).
Proof.
  intros Hp Hs. unfold replaceAll. destruct s as [|x t].
  - cbn [replaceAll_from]. rewrite (@matchHere_needs_numbering p false [] Hp Hs).
    apply HeadClean_nil.
  - cbn [replaceAll_from]. rewrite (@matchHere_needs_numbering p false (x :: t) Hp Hs).
    intros c rest E. injection E as <- _. now apply (Hs x t).
Qed.

Lemma replaceAll_from_last p r y :
  StartsWithNumbering p -> Within (fun c => isNumbering c = true) p ->
  isNumbering y = false ->
  forall s skip, (skip <= List.length s)%nat ->
  exists out, replaceAll_from p r skip (s ++ [y]) = out ++ [y].
Proof.
  intros Hstart Hp Hy.
  assert (Hnil : matchHere p false [] = None)
    by (apply matchHere_needs_numbering; [assumption | apply HeadClean_nil]).
  assert (Hone : matchHere p false [y] = None).
  { apply matchHere_needs_numbering; [assumption|].
    intros c rest E. now injection E as <- _. }
  induction s as [|x s IH]; intros skip Hskip.
  - destruct skip; [|simpl in Hskip; lia].
    cbn [app replaceAll_from]. rewrite Hone. cbn [replaceAll_from]. rewrite Hnil.
    now exists [].
  - destruct skip as [|n].
    + cbn [app replaceAll_from].
      destruct (matchHere p false (x :: s ++ [y])) as [rest|] eqn:E.
      * destruct (@matchHere_consumes _ p false Hp _ _ E) as [pre [Hsplit Hpre]].
        assert (Hlen : (List.length pre <= List.length (x :: s))%nat).
        { destruct rest as [|z rest] using rev_ind.
          - rewrite app_nil_r in Hsplit.
            assert (Hin : In y pre) by (rewrite <- Hsplit; simpl; right;
                                        apply in_or_app; right; now left).
            rewrite Forall_forall in Hpre. apply Hpre in Hin. congruence.
          - clear IHrest. apply (f_equal (@List.length N)) in Hsplit.
            simpl in Hsplit. rewrite !length_app in Hsplit. simpl in Hsplit. simpl. lia. }
        assert (Hcount : (List.length (x :: s ++ [y]) - List.length rest
                          = List.length pre)%nat).
        { rewrite Hsplit, length_app. lia. }
        rewrite Hcount.
        destruct pre as [|z pre]; cbn [List.length].
        -- destruct (IH 0%nat) as [out Hout]; [lia|].
           rewrite Hout. exists (r ++ x :: out). now rewrite <- app_assoc.
        -- destruct (IH (List.length pre)) as [out Hout]; [simpl in Hlen; lia|].
           rewrite Hout. exists (r ++ out). now rewrite <- app_assoc.
      * destruct (IH 0%nat) as [out Hout]; [lia|].
        rewrite Hout. now exists (x :: out).
    + cbn [app replaceAll_from]. apply IH. simpl in Hskip. lia.
Qed.

Lemma replaceAll_last p r s :
  StartsWithNumbering p -> Within (fun c => isNumbering c = true) p ->
  LastClean s -> LastClean (replaceAll p r s).
Proof.
  intros Hstart Hp Hs. destruct s as [|x t] using rev_ind.
  - unfold replaceAll. cbn [replaceAll_from].
    rewrite (@matchHere_needs_numbering p false [] Hstart HeadClean_nil).
    apply LastClean_nil.
  - clear IHt. pose proof (Hs t x eq_refl) as Hx.
    destruct (@replaceAll_from_last p r x Hstart Hp Hx t 0%nat) as [out Hout]; [lia|].
    unfold replaceAll. rewrite Hout.
    intros pre c E. apply app_inj_tail in E as [_ <-]. assumption.
Qed.

Lemma list_number_shape :
  StartsWithNumbering re_list_number
  /\ Within (fun c => isNumbering c = true) re_list_number.
Proof.
  assert (Hnl : forall c, (10 =? c) = true -> isNumbering c = true).
  { intros c H. apply N.eqb_eq in H. now subst. }
  assert (Hdot : forall c, isChar "." c = true -> isNumbering c = true).
  { intros c H. unfold isNumbering. rewrite H. now rewrite orb_true_r. }
  split.
  - split; [discriminate | exact Hnl].
  - repeat constructor; cbn [cls]; auto using isSpace_isNumbering, isDigit_isNumbering.
Qed.

Lemma isolated_number_shape :
  StartsWithNumbering re_isolated_number
  /\ Within (fun c => isNumbering c = true) re_isolated_number.
Proof.
  split.
  - split; [discriminate | exact isSpace_isNumbering].
  - repeat constructor; cbn [cls]; auto using isSpace_isNumbering, isDigit_isNumbering.
Qed.

(** ** [trim] *)

Lemma trimStart_clean s : HeadClean s -> trimStart s = s.
Proof.
  intros Hs. destruct s as [|x t]; [reflexivity|]. simpl.
  destruct (isSpace x) eqn:E; [|reflexivity].
  apply isSpace_isNumbering in E. now rewrite (Hs x t eq_refl) in E.
Qed.

Lemma trim_clean s : HeadClean s -> LastClean s -> trim s = s.
Proof.
  intros Hh Hl. unfold trim, trimEnd. rewrite (trimStart_clean Hh).
  rewrite trimStart_clean; [apply rev_involutive|].
  intros c rest E. apply (Hl (rev rest) c).
  rewrite <- (rev_involutive s), E. reflexivity.
Qed.

(** The cleaned text neither starts nor ends with a digit, a dot or a
    white space. *)
Lemma cleanSegmentText_ends t :
  HeadClean (cleanSegmentText t) /\ LastClean (cleanSegmentText t).
Proof.
  unfold cleanSegmentText.
  set (t1 := replaceAtStart re_leading_number false [] t).
  set (t2 := replaceAtStart re_leading_numbering false [] t1).
  set (t3 := replaceFirst re_trailing_numbering true [] t2).
  set (t4 := replaceAll re_list_number [10] t3).
  set (t5 := replaceAll re_isolated_number (lit " ") t4).
  assert (H2 : HeadClean t2) by apply replace_leading_numbering.
  assert (H3 : HeadClean t3 /\ LastClean t3).
  { split; [now apply replace_trailing_head | apply replace_trailing_last]. }
  destruct list_number_shape as [Hs4 Hw4], isolated_number_shape as [Hs5 Hw5].
  assert (H4 : HeadClean t4 /\ LastClean t4).
  { split; [now apply replaceAll_head | now apply replaceAll_last]. }
  assert (H5 : HeadClean t5 /\ LastClean t5).
  { split; [now apply replaceAll_head | now apply replaceAll_last]. }
  destruct H5 as [Hh Hl]. now rewrite (trim_clean Hh Hl).
Qed.

Lemma addTiming_from_segment l : forall len i c,
  map segment (addTiming_from len i c l) = map segment l.
Proof.
  induction l as [|seg rest IH]; intros len i c; simpl; [reflexivity|].
  now rewrite IH.
Qed.

Lemma clean_prefix_unique a : forall a' b b',
  Forall (fun c => isNumbering c = true) a ->
  Forall (fun c => isNumbering c = true) a' ->
  HeadClean b -> HeadClean b' -> a ++ b = a' ++ b' -> b = b'.
Proof.
  induction a as [|x a IH]; intros a' b b' Ha Ha' Hb Hb' E.
  - destruct a' as [|y a']; [exact E|]. simpl in E.
    inversion Ha' as [|? ? Hy _]; subst. rewrite (Hb y (a' ++ b') eq_refl) in Hy.
    discriminate.
  - inversion Ha as [|? ? Hx Ha0]; subst. destruct a' as [|y a'].
    + simpl in E. symmetry in E. rewrite (Hb' x (a ++ b) E) in Hx. discriminate.
    + inversion Ha' as [|? ? _ Ha0']; subst. injection E as _ E. eapply IH; eauto.
Qed.

Lemma LastClean_rev s : LastClean s -> HeadClean (rev s).
Proof.
  intros H c rest E. apply (H (rev rest) c).
  rewrite <- (rev_involutive s), E. reflexivity.
Qed.

Lemma clean_suffix_unique a a' b b' :
  Forall (fun c => isNumbering c = true) b ->
  Forall (fun c => isNumbering c = true) b' ->
  LastClean a -> LastClean a' -> a ++ b = a' ++ b' -> a = a'.
Proof.
  intros Hb Hb' Ha Ha' E. apply (f_equal (@rev N)) in E. rewrite !rev_app_distr in E.
  apply clean_prefix_unique in E; auto using LastClean_rev, Forall_rev.
  rewrite <- (rev_involutive a), E. apply rev_involutive.
Qed.

Lemma replaceAll_nomatch p r s : test p false s = false -> replaceAll p r s = s.
Proof.
  unfold replaceAll. induction s as [|x s IH]; cbn [test replaceAll_from].
  - destruct (matchHere p false []); [discriminate|reflexivity].
  - destruct (matchHere p false (x :: s)); [discriminate|].
    intros H. now rewrite IH.
Qed.

Lemma HeadClean_app s post : s <> [] -> HeadClean s -> HeadClean (s ++ post).
Proof.
  intros Hne Hs c rest E. destruct s as [|x t]; [congruence|].
  injection E as <- _. now apply (Hs x t).
Qed.

(** ** What the replacements remove *)

Lemma content_numbering pre :
  Forall (fun c => isNumbering c = true) pre -> content pre = [].
Proof.
  unfold content. induction 1 as [|x pre Hx _ IH]; [reflexivity|].
  simpl. now rewrite Hx.
Qed.

Lemma content_app a b : content (a ++ b) = content a ++ content b.
Proof. apply filter_app. Qed.

Lemma matchHere_removed p eol s r :
  Within (fun c => isNumbering c = true) p -> matchHere p eol s = Some r ->
  exists pre, s = pre ++ r /\ Forall (fun c => isNumbering c = true) pre.
Proof. intros Hp H. exact (@matchHere_consumes _ p eol Hp s r H). Qed.

Lemma matchHere_content p eol s r :
  Within (fun c => isNumbering c = true) p -> matchHere p eol s = Some r ->
  content s = content r.
Proof.
  intros Hp H. destruct (@matchHere_removed p eol s r Hp H) as [pre [-> Hpre]].
  now rewrite content_app, (@content_numbering pre Hpre).
Qed.

Lemma replaceAtStart_removed p s :
  Within (fun c => isNumbering c = true) p ->
  exists pre, s = pre ++ replaceAtStart p false [] s
              /\ Forall (fun c => isNumbering c = true) pre.
Proof.
  intros Hp. unfold replaceAtStart.
  destruct (matchHere p false s) as [r|] eqn:E.
  - now apply matchHere_removed in E.
  - exists []. now split.
Qed.

Lemma replaceFirst_removed p s :
  Within (fun c => isNumbering c = true) p ->
  exists post, s = replaceFirst p true [] s ++ post
               /\ Forall (fun c => isNumbering c = true) post.
Proof.
  intros Hp. induction s as [|x s [post [IHp IHn]]]; cbn [replaceFirst].
  - destruct (matchHere p true []) as [r|] eqn:E.
    + apply matchHere_eol in E as ->. exists []. now split.
    + exists []. now split.
  - destruct (matchHere p true (x :: s)) as [r|] eqn:E.
    + pose proof (matchHere_eol _ _ E) as ->.
      destruct (@matchHere_removed p true (x :: s) [] Hp E) as [pre [Hs Hpre]].
      rewrite app_nil_r in Hs. subst pre. exists (x :: s). now split.
    + exists post. split; [|assumption]. simpl. now rewrite <- IHp.
Qed.

Lemma content_cons x s :
  content (x :: s) = if negb (isNumbering x) then x :: content s else content s.
Proof. reflexivity. Qed.

Lemma replaceAll_from_content p r s :
  Within (fun c => isNumbering c = true) p ->
  Forall (fun c => isNumbering c = true) r ->
  forall skip, Forall (fun c => isNumbering c = true) (firstn skip s) ->
  content (replaceAll_from p r skip s) = content s.
Proof.
  intros Hp Hr. induction s as [|x s IH]; intros skip Hskip.
  - destruct skip; cbn [replaceAll_from]; [|reflexivity].
    destruct (matchHere p false []) as [rest|]; [|reflexivity].
    cbn [List.length Nat.sub]. now apply content_numbering.
  - destruct skip as [|n]; cbn [replaceAll_from].
    + destruct (matchHere p false (x :: s)) as [rest|] eqn:E.
      * destruct (@matchHere_removed p false (x :: s) rest Hp E) as [pre [Hs Hpre]].
        assert (Hcount : (List.length (x :: s) - List.length rest = List.length pre)%nat).
        { rewrite Hs, length_app. lia. }
        rewrite Hcount. destruct pre as [|y pre]; cbn [List.length].
        -- rewrite content_app, (@content_numbering r Hr). cbn [app].
           rewrite !content_cons, IH by constructor. reflexivity.
        -- injection Hs as <- Hs. inversion Hpre as [|? ? Hy Hpre']; subst.
           rewrite content_app, (@content_numbering r Hr). cbn [app].
           rewrite content_cons, Hy. cbn [negb]. apply IH.
           rewrite firstn_app, Nat.sub_diag, firstn_all. cbn [firstn].
           now rewrite app_nil_r.
      * rewrite !content_cons, IH by constructor. reflexivity.
    + cbn [firstn] in Hskip. inversion Hskip as [|? ? Hx Hn]; subst.
      rewrite content_cons, Hx. cbn [negb]. now apply IH.
Qed.

Lemma replaceAll_content p r s :
  Within (fun c => isNumbering c = true) p ->
  Forall (fun c => isNumbering c = true) r ->
  content (replaceAll p r s) = content s.
Proof.
  intros Hp Hr. unfold replaceAll. apply replaceAll_from_content; try assumption.
  constructor.
Qed.

Lemma trimStart_content s : content (trimStart s) = content s.
Proof.
  induction s as [|x s IH]; [reflexivity|]. cbn [trimStart].
  destruct (isSpace x) eqn:Hx; [|reflexivity].
  now rewrite IH, content_cons, (isSpace_isNumbering _ Hx).
Qed.

Lemma content_rev s : content (rev s) = rev (content s).
Proof. apply filter_rev. Qed.

Lemma trim_content s : content (trim s) = content s.
Proof.
  unfold trim, trimEnd.
  now rewrite content_rev, trimStart_content, content_rev, rev_involutive, trimStart_content.
Qed.

Lemma Within_leading_number :
  Within (fun c => isNumbering c = true) re_leading_number.
Proof.
  assert (Hdot : forall c, isChar "." c = true -> isNumbering c = true).
  { intros c H. unfold isNumbering. rewrite H. now rewrite orb_true_r. }
  repeat constructor; cbn [cls]; auto using isSpace_isNumbering, isDigit_isNumbering.
Qed.

Lemma Within_leading_numbering :
  Within (fun c => isNumbering c = true) re_leading_numbering.
Proof. repeat constructor; cbn [cls]; auto using isSpace_isNumbering. Qed.

(** The cleaning removes digits, dots and white space only, and adds
    nothing else. *)
Lemma cleanSegmentText_content t : content (cleanSegmentText t) = content t.
Proof.
  unfold cleanSegmentText.
  destruct list_number_shape as [_ Hw4], isolated_number_shape as [_ Hw5].
  rewrite trim_content.
  rewrite replaceAll_content; [|exact Hw5|repeat constructor].
  rewrite replaceAll_content; [|exact Hw4|repeat constructor].
  set (t1 := replaceAtStart re_leading_number false [] t).
  set (t2 := replaceAtStart re_leading_numbering false [] t1).
  destruct (@replaceFirst_removed re_trailing_numbering t2 Within_trailing) as [post [E3 Hpost]].
  destruct (@replaceAtStart_removed re_leading_numbering t1 Within_leading_numbering) as [pre2 [E2 Hpre2]].
  destruct (@replaceAtStart_removed re_leading_number t Within_leading_number) as [pre1 [E1 Hpre1]].
  fold t1 in E1. fold t2 in E2.
  apply (f_equal content) in E1, E2, E3. rewrite content_app in E1, E2, E3.
  rewrite (@content_numbering pre1 Hpre1) in E1.
  rewrite (@content_numbering pre2 Hpre2) in E2.
  rewrite (@content_numbering post Hpost), app_nil_r in E3.
  cbn [app] in E1, E2. congruence.
Qed.

(** A body with clean ends and no numbered line or isolated number inside
    is what the cleaning leaves of it, whatever numbering surrounds it. *)
Lemma cleanSegmentText_body pre body post :
  Forall (fun c => isNumbering c = true) pre ->
  Forall (fun c => isNumbering c = true) post ->
  body <> [] -> HeadClean body -> LastClean body ->
  test re_list_number false body = false ->
  test re_isolated_number false body = false ->
  cleanSegmentText (pre ++ body ++ post) = body.
Proof.
  intros Hpre Hpost Hne Hh Hl Hlist Hiso. unfold cleanSegmentText.
  set (t := pre ++ body ++ post).
  set (t1 := replaceAtStart re_leading_number false [] t).
  set (t2 := replaceAtStart re_leading_numbering false [] t1).
  destruct (@replaceAtStart_removed re_leading_number t Within_leading_number) as [pre1 [E1 Hpre1]].
  destruct (@replaceAtStart_removed re_leading_numbering t1 Within_leading_numbering) as [pre2 [E2 Hpre2]].
  fold t1 in E1. fold t2 in E2.
  assert (H2 : HeadClean t2) by apply replace_leading_numbering.
  assert (E : t2 = body ++ post).
  { symmetry. apply (@clean_prefix_unique pre (pre1 ++ pre2) (body ++ post) t2).
    - assumption.
    - apply Forall_app. now split.
    - now apply HeadClean_app.
    - assumption.
    - rewrite <- app_assoc, <- E2, <- E1. reflexivity. }
  rewrite E.
  destruct (@replaceFirst_removed re_trailing_numbering (body ++ post) Within_trailing) as [post' [E3 Hpost']].
  assert (E' : replaceFirst re_trailing_numbering true [] (body ++ post) = body).
  { symmetry.
    apply (@clean_suffix_unique body _ post post' Hpost Hpost' Hl
             (replace_trailing_last (body ++ post)) E3). }
  rewrite E', (replaceAll_nomatch _ _ _ Hlist), (replaceAll_nomatch _ _ _ Hiso).
  now apply trim_clean.
Qed.

Lemma tooShort_spec cleaned :
  tooShort cleaned = true <-> (List.length cleaned < 3)%nat.
Proof.
  unfold tooShort. destruct cleaned as [|c rest].
  - simpl. split; [lia|reflexivity].
  - apply Nat.ltb_lt.
Qed.

Lemma segmentText_kept s : TextKept s.
Proof.
  unfold TextKept. cbv zeta.
  destruct (cleanSegmentText_ends (text s)) as [Hh Hl].
  split; [assumption|]. split; [assumption|].
  split; [apply cleanSegmentText_content|].
  split.
  { intros pre body post E Hpre Hpost Hne Hbh Hbl Hlist Hiso. rewrite E.
    now apply cleanSegmentText_body. }
  unfold segmentText.
  destruct (tooShort (cleanSegmentText (text s))) eqn:E.
  - apply tooShort_spec in E. repeat split; [lia | auto].
  - assert (Hlen : (3 <= List.length (cleanSegmentText (text s)))%nat).
    { destruct (Nat.lt_ge_cases (List.length (cleanSegmentText (text s))) 3) as [H|H];
        [|assumption].
      apply tooShort_spec in H. congruence. }
    repeat split; [lia|].
    intros H. rewrite H in Hlen. simpl in Hlen. lia.
Qed.

(** C8, as the code has it.  When the reply is well typed, the segments
    returned by [analyzeTextEnvironments] are those of the reply, one for
    one and in the same order (none is discarded), and the text of each is
    [segmentText]: the text cleaned by the five replacements and [trim], or
    the original text when the cleaned one has fewer than 3 units (the
    empty one included).  The cleaned text neither starts nor ends with a
    digit, a dot or a white space; it has the units of the original that
    are no digit, dot or white space, all of them and in the same order;
    and when the original is a body with clean ends, surrounded by digits,
    dots and white space only and without a numbered line or an isolated
    number inside, the cleaned text is this body, unchanged.  The text kept
    is empty only when the original text is empty. *)
Theorem cleaned_or_original_text (input : jsstring) (outcome : FetchOutcome)
    (segs : list EnhancedSegment) :
  analyzeTextWithGrok input outcome = Segments segs ->
  map segment (analyzeTextEnvironments input outcome) = map segmentText segs
  /\ Forall TextKept segs.
Proof.
  intros H. split.
  - unfold analyzeTextEnvironments. rewrite H. cbn [convertSegments].
    unfold addTiming. rewrite addTiming_from_segment, map_map. reflexivity.
  - apply Forall_forall. intros s _. apply segmentText_kept.
Qed.

Lemma cleaned_or_original_text_witness :
  analyzeTextWithGrok (lit "Bonjour") numbered
  = Segments [plainSegment "1. Bonjour 2." "lent"; plainSegment "12" "lent"]
  /\ map segment (analyzeTextEnvironments (lit "Bonjour") numbered)
     = [lit "Bonjour"; lit "12"]
  /\ Forall TextKept [plainSegment "1. Bonjour 2." "lent"; plainSegment "12" "lent"].
Proof.
  split; [reflexivity|].
  destruct (@cleaned_or_original_text (lit "Bonjour") numbered _ eq_refl) as [Hmap Hkept].
  split; [|exact Hkept]. rewrite Hmap. reflexivity.
Defined.

(** C8, as stated, fails in its last words: a segment of the reply whose
    text is the empty string is cleaned to the empty string, the original
    text is put back, and the segment is left empty. *)
Lemma empty_segment_text_stays_empty :
  exists d,
    analyzeTextEnvironments (lit "Bonjour") emptySegment = [d] /\ segment d = [].
Proof. eexists. split; reflexivity. Qed.

End CleaningFacts.

(** ** Transitions and start times *)

Module TimingFacts.

Import JsString Grok Properties Examples JsStringFacts.
Local Open Scope Q_scope.

(** C7.  For every text and speech rate, [calculateTiming] chooses the
    transition from the text alone: a text that contains three dots gives
    [crossfade] with 1.0 s; otherwise a text whose last unit after [trim] is
    [.], [!] or [?] gives [cut] with 0.2 s; otherwise [overlap] with
    0.5 s. *)
Theorem calculateTiming_transition (text speechRate : jsstring) :
  let timing := calculateTiming text speechRate in
  (Contains text (lit "...")
   /\ transitionType timing = crossfade /\ transitionDuration timing = 1.0)
  \/ (~ Contains text (lit "...") /\ EndsWithTerminal (trim text)
      /\ transitionType timing = cut /\ transitionDuration timing = 0.2)
  \/ (~ Contains text (lit "...") /\ ~ EndsWithTerminal (trim text)
      /\ transitionType timing = overlap /\ transitionDuration timing = 0.5).
Proof.
  cbv zeta. unfold calculateTiming; cbn [transitionType transitionDuration].
  destruct (includes text (lit "...")) eqn:Hi.
  - left. apply includes_spec in Hi. repeat split; assumption.
  - right.
    assert (Hn : ~ Contains text (lit "...")).
    { intro H. apply includes_spec in H. congruence. }
    unfold re_terminal.
    destruct (test [Atom isTerminal One] true (trim text)) eqn:Ht.
    + left. apply test_terminal_spec in Ht as [pre [c [H Hc]]].
      repeat split; try assumption.
      exists pre, c. split; [assumption | now apply isTerminal_spec].
    + right. repeat split; try assumption.
      intros [pre [c [H Hc]]].
      assert (test [Atom isTerminal One] true (trim text) = true); [|congruence].
      apply test_terminal_spec. exists pre, c. split; [assumption | now apply isTerminal_spec].
Qed.

Lemma addTiming_from_head len i c l d :
  nth_error (addTiming_from len i c l) 0 = Some d -> startTime d = Some c.
Proof.
  destruct l as [|seg rest]; cbn [addTiming_from nth_error]; [discriminate|].
  intros H; injection H as <-. reflexivity.
Qed.

Lemma addTiming_from_follows l : forall len i c k a b,
  len = (i + List.length l)%nat ->
  nth_error (addTiming_from len i c l) k = Some a ->
  nth_error (addTiming_from len i c l) (S k) = Some b ->
  Follows a b.
Proof.
  induction l as [|seg rest IH]; intros len i c k a b Hlen Ha Hb.
  - destruct k; discriminate.
  - destruct k as [|k].
    + simpl in Ha, Hb. injection Ha as <-.
      destruct rest as [|seg' rest]; [discriminate|].
      apply addTiming_from_head in Hb.
      unfold Follows; cbn [withTiming segment speechRate startTime duration transition].
      exists c. repeat split. rewrite Hb. f_equal.
      unfold nextTime.
      replace (Z.of_nat i <? Z.of_nat len - 1)%Z with true
        by (symmetry; apply Z.ltb_lt; simpl in Hlen; lia).
      now destruct (transitionType _).
    + simpl in Ha, Hb. eapply IH; [|exact Ha|exact Hb]. simpl in Hlen. lia.
Qed.

Lemma assembled_inv out : Assembled out -> exists results, out = addTiming results.
Proof.
  intros [text outcome|text|results].
  - unfold analyzeTextEnvironments, convertSegments.
    destruct (analyzeTextWithGrok text outcome); eexists; reflexivity.
  - eexists; reflexivity.
  - eexists; reflexivity.
Qed.

Lemma assembled_head out first :
  Assembled out -> nth_error out 0 = Some first -> startTime first = Some 0.
Proof.
  intros H. apply assembled_inv in H as [results ->]. apply addTiming_from_head.
Qed.

Lemma assembled_follows out k a b :
  Assembled out ->
  nth_error out k = Some a -> nth_error out (S k) = Some b -> Follows a b.
Proof.
  intros H. apply assembled_inv in H as [results ->].
  apply addTiming_from_follows. reflexivity.
Qed.

(** C3.  On every list of segments assembled by [analyzeTextEnvironments]
    or by [analyzeTextLocally], the first start time is 0, and for two
    consecutive segments [a] and [b] the start of [b] is the start of [a]
    plus the duration of [a], less the transition duration of [a] when the
    transition of [a] is a crossfade ([a], having a successor, is not the
    last segment); duration and transition are those [calculateTiming]
    gives for the text and speech rate of [a]. *)
Theorem start_time_recurrence (out : list EnvironmentDetection) :
  Assembled out ->
  (forall first, nth_error out 0 = Some first -> startTime first = Some 0)
  /\ (forall k a b,
        nth_error out k = Some a -> nth_error out (S k) = Some b -> Follows a b).
Proof.
  intros H. split.
  - intros first. now apply assembled_head.
  - intros k a b. now apply assembled_follows.
Qed.

Lemma split_from_nonempty p s : forall skip cur, split_from p skip cur s <> [].
Proof.
  induction s as [|x s IH]; intros skip cur.
  - destruct skip; discriminate.
  - destruct skip as [|n]; cbn [split_from].
    + destruct (matchHere p false (x :: s)) as [rest|]; [|apply IH].
      destruct (List.length (x :: s) - List.length rest)%nat; [apply IH|discriminate].
    + apply IH.
Qed.

Lemma estimatedDuration_pos text rate :
  0 < estimatedDuration (calculateTiming text rate).
Proof.
  unfold calculateTiming; cbn [estimatedDuration].
  set (pieces := split re_spaces (trim text)).
  assert (Hw : 0 < inject_Z (Z.of_nat (List.length pieces))).
  { assert (pieces <> []) by apply split_from_nonempty.
    destruct pieces; [contradiction|].
    unfold Qlt; simpl. lia. }
  destruct (rate === "très lent"); [|destruct (rate === "lent"); [|destruct (rate === "modéré")]];
    (apply Qlt_shift_div_l; [reflexivity | now rewrite Qmult_0_l]).
Qed.

Lemma crossfade_ellipsis text rate :
  transitionType (calculateTiming text rate) = crossfade
  <-> includes text (lit "...") = true.
Proof.
  unfold calculateTiming; cbn [transitionType].
  destruct (includes text (lit "...")); [tauto|].
  destruct (test re_terminal true (trim text)); split; discriminate.
Qed.



Lemma start_time_recurrence_witness :
  let out := analyzeTextEnvironments (lit "Oh... oui Encore") shortCrossfade in
  exists a b,
    nth_error out 0 = Some a /\ nth_error out 1 = Some b
    /\ startTime a = Some 0 /\ Follows a b.
Proof.
  cbv zeta. eexists _, _.
  split; [vm_compute; reflexivity|]. split; [vm_compute; reflexivity|].
  destruct (@start_time_recurrence
              (analyzeTextEnvironments (lit "Oh... oui Encore") shortCrossfade)
              (assembled_remote _ _)) as [H0 Hk].
  split.
  - apply H0. vm_compute; reflexivity.
  - apply (Hk 0%nat); vm_compute; reflexivity.
Defined.


End TimingFacts.

(** ** Conversion of the segments of the reply; emotional tone *)

Module ConversionFacts.

Import JsString Grok ElevenLabsAPI Properties Examples JsStringFacts TimingFacts.
Local Open Scope Q_scope.

Lemma addTiming_from_nth l : forall len i c k d,
  nth_error (addTiming_from len i c l) k = Some d ->
  exists seg c',
    nth_error l k = Some seg
    /\ d = withTiming seg c' (calculateTiming (segment seg) (speechRate seg)).
Proof.
  induction l as [|seg rest IH]; intros len i c k d H.
  - destruct k; discriminate.
  - destruct k as [|k]; simpl in H.
    + injection H as <-. now exists seg, c.
    + now apply IH in H.
Qed.

Lemma addTiming_from_length l : forall len i c,
  List.length (addTiming_from len i c l) = List.length l.
Proof. induction l as [|seg rest IH]; intros; simpl; [|rewrite IH]; reflexivity. Qed.

Lemma addTiming_from_Forall (P : EnvironmentDetection -> Prop) l :
  (forall seg c t, P seg -> P (withTiming seg c t)) ->
  Forall P l -> forall len i c, Forall P (addTiming_from len i c l).
Proof.
  intros HP H. induction H as [|seg rest Hseg Hrest IH]; intros len i c; simpl.
  - constructor.
  - constructor; [now apply HP | apply IH].
Qed.

Lemma addTiming_Forall (P : EnvironmentDetection -> Prop) l :
  (forall seg c t, P seg -> P (withTiming seg c t)) ->
  Forall P l -> Forall P (addTiming l).
Proof. intros HP H. now apply addTiming_from_Forall. Qed.

(** The segments of a well-typed payload are converted one by one. *)
Lemma analyzeTextEnvironments_nth text outcome segs k d :
  analyzeTextWithGrok text outcome = Segments segs ->
  nth_error (analyzeTextEnvironments text outcome) k = Some d ->
  exists s c,
    nth_error segs k = Some s
    /\ d = withTiming (convertSegment s) c
             (calculateTiming (segment (convertSegment s)) (speechRate (convertSegment s))).
Proof.
  intros Hsegs H. unfold analyzeTextEnvironments in H. rewrite Hsegs in H.
  cbn [convertSegments] in H. apply addTiming_from_nth in H as [seg [c [Hnth ->]]].
  rewrite nth_error_map in Hnth.
  destruct (nth_error segs k) as [s|]; [|discriminate].
  injection Hnth as <-. now exists s, c.
Qed.

Lemma Qgtb_true a b : Qgtb a b = true <-> b < a.
Proof.
  unfold Qgtb. rewrite negb_true_iff. split; intro H.
  - apply Qnot_le_lt. intro Hle. apply Qle_bool_iff in Hle. congruence.
  - destruct (Qle_bool a b) eqn:E; [|reflexivity].
    apply Qle_bool_iff in E. apply Qle_not_lt in E. contradiction.
Qed.

Lemma Qgtb_false a b : Qgtb a b = false <-> a <= b.
Proof.
  unfold Qgtb. rewrite negb_false_iff. apply Qle_bool_iff.
Qed.

Lemma deriveEmotionalTone_jouissance (v : VocalCharacteristics) :
  (deriveEmotionalTone v = lit "jouissance" ->
   vocal_type v = lit "cri" /\ intensity v <= 80)
  /\ (vocal_type v <> lit "cri" -> vocal_type v <> lit "gémissement" ->
      90 < intensity v -> deriveEmotionalTone v = lit "excite").
Proof.
  unfold deriveEmotionalTone, strictEq. split.
  - intros H.
    destruct (eqb (vocal_type v) (lit "gémissement")); [vm_compute in H; discriminate|].
    destruct (Qgtb (intensity v) 80) eqn:H80; [vm_compute in H; discriminate|].
    apply Qgtb_false in H80. split; [|assumption].
    destruct (eqb (vocal_type v) (lit "cri")) eqn:Hcri; [now apply eqb_eq|].
    assert (H90 : Qgtb (intensity v) 90 = false) by (apply Qgtb_false; lra).
    rewrite H90 in H. cbn [orb] in H.
    destruct (eqb (vocal_type v) (lit "murmure") || eqb (vocal_type v) (lit "chuchotement"));
      [vm_compute in H; discriminate|].
    destruct (Qgtb (intensity v) 70); [vm_compute in H; discriminate|].
    destruct (Qltb (intensity v) 50); vm_compute in H; discriminate.
  - intros _ _ H90.
    assert (H80 : Qgtb (intensity v) 80 = true) by (apply Qgtb_true; lra).
    rewrite H80, orb_true_r. reflexivity.
Qed.

(** C10.  For every segment [d] that [analyzeTextEnvironments] makes of a
    segment [s] of the reply: the tone of [d] is [jouissance] only if the
    vocal type of [s] is [cri] and its intensity is at most 80; and if the
    vocal type is neither [cri] nor [gémissement] and the intensity is above
    90, the tone is [excite]. *)
Theorem jouissance_tone (text : jsstring) (outcome : FetchOutcome)
    (segs : list EnhancedSegment) (k : nat) (d : EnvironmentDetection) :
  analyzeTextWithGrok text outcome = Segments segs ->
  nth_error (analyzeTextEnvironments text outcome) k = Some d ->
  exists s,
    nth_error segs k = Some s
    /\ (emotionalTone d = lit "jouissance" ->
        vocal_type (vocal s) = lit "cri" /\ intensity (vocal s) <= 80)
    /\ (vocal_type (vocal s) <> lit "cri" ->
        vocal_type (vocal s) <> lit "gémissement" ->
        90 < intensity (vocal s) -> emotionalTone d = lit "excite").
Proof.
  intros Hsegs Hd.
  destruct (analyzeTextEnvironments_nth _ _ _ Hsegs Hd) as [s [c [Hs ->]]].
  exists s. split; [assumption|].
  cbn [emotionalTone withTiming convertSegment].
  apply deriveEmotionalTone_jouissance.
Qed.

Lemma jouissance_tone_witness :
  let out := analyzeTextEnvironments (lit "Oui Encore Viens") cries in
  exists d0 d2 s0 s2,
    nth_error out 0 = Some d0 /\ nth_error out 2 = Some d2
    /\ emotionalTone d0 = lit "jouissance"
    /\ vocal_type (vocal s0) = lit "cri" /\ intensity (vocal s0) <= 80
    /\ 90 < intensity (vocal s2)
    /\ emotionalTone d2 = lit "excite".
Proof.
  cbv zeta.
  destruct (@jouissance_tone (lit "Oui Encore Viens") cries _ 0 _ eq_refl eq_refl)
    as [s0 [Hs0 [Hj0 _]]].
  destruct (@jouissance_tone (lit "Oui Encore Viens") cries _ 2 _ eq_refl eq_refl)
    as [s2 [Hs2 [_ He2]]].
  eexists _, _, s0, s2.
  split; [reflexivity|]. split; [reflexivity|].
  injection Hs0 as <-. injection Hs2 as <-.
  split; [reflexivity|].
  split; [apply Hj0; reflexivity|].
  split; [apply Hj0; reflexivity|].
  split; [reflexivity|].
  apply He2; [vm_compute; discriminate | vm_compute; discriminate | reflexivity].
Defined.

End ConversionFacts.

(** ** Speech rate; failure of the request *)

Module PipelineFacts.

Import JsString Grok ElevenLabsAPI Properties Examples JsStringFacts TimingFacts ConversionFacts.
Local Open Scope Q_scope.

Lemma prosodySpeed_withTiming seg c t :
  prosodySpeed (withTiming seg c t) = prosodySpeed seg.
Proof. reflexivity. Qed.

Lemma speedField_withTiming seg c t : speedField (withTiming seg c t) = speedField seg.
Proof. reflexivity. Qed.

Lemma convertSegment_speed s : SpeedOutcome (convertSegment s).
Proof.
  unfold SpeedOutcome, speedField, prosodySpeed, convertSegment;
    cbn [elevenlabsParams speed emotionalTone].
  destruct (rhythm (vocal s) === "très lent"); [left; split; reflexivity|].
  destruct (rhythm (vocal s) === "lent"); [right; left; split; reflexivity|].
  destruct (rhythm (vocal s) === "rapide"); right; right; [right|left]; split; reflexivity.
Qed.

Lemma localSegment_speed p :
  speedField (localSegment p) = Some (lit "35%")
  /\ prosodySpeed (localSegment p) = percent (Some 35%Z).
Proof. split; reflexivity. Qed.

Lemma prosodySpeed_bounded d :
  prosodySpeed d = lit "NaN%"
  \/ exists n, prosodySpeed d = percent (Some n) /\ (n <= 35)%Z.
Proof.
  assert (Htone : forall tone : jsstring,
            exists n,
              (if tone === "jouissance" then lit "35%"
               else if tone === "excite" then lit "32%"
               else if tone === "murmure" then lit "20%"
               else if tone === "sensuel" then lit "25%"
               else if tone === "intense" then lit "30%"
               else lit "28%") = percent (Some n) /\ (n <= 35)%Z).
  { intros tone.
    destruct (tone === "jouissance"); [exists 35%Z; split; [reflexivity|lia]|].
    destruct (tone === "excite"); [exists 32%Z; split; [reflexivity|lia]|].
    destruct (tone === "murmure"); [exists 20%Z; split; [reflexivity|lia]|].
    destruct (tone === "sensuel"); [exists 25%Z; split; [reflexivity|lia]|].
    destruct (tone === "intense"); [exists 30%Z; split; [reflexivity|lia]|].
    exists 28%Z; split; [reflexivity|lia]. }
  unfold prosodySpeed.
  destruct (elevenlabsParams d) as [params|]; [|right; apply Htone].
  destruct (speed params) as [[|c s]|]; [right; apply Htone| |right; apply Htone].
  destruct (parseInt (replaceString (c :: s) (lit "%") [])) as [v|]; cbn [capSpeed].
  - right. exists (Z.min v 35). split; [reflexivity|lia].
  - left. reflexivity.
Qed.

Lemma SpeedOutcome_bounded d :
  SpeedOutcome d -> exists n, prosodySpeed d = percent (Some n) /\ (n <= 35)%Z.
Proof.
  intros [[_ H]|[[_ H]|[[_ H]|[_ H]]]]; eexists; (split; [exact H|lia]).
Qed.

Lemma analyzeTextLocally_speed text :
  Forall (fun d => speedField d = Some (lit "35%")
                   /\ prosodySpeed d = percent (Some 35%Z))
    (analyzeTextLocally text).
Proof.
  unfold analyzeTextLocally. apply addTiming_Forall; [intros seg c t H; exact H|].
  apply Forall_map, Forall_forall. intros p _. apply localSegment_speed.
Qed.

(** C1, as the code has it.  For every segment that
    [analyzeTextEnvironments] returns, the [speed] field is 25%, 35%, 45%
    or 55%, and the rate that [generateVoiceWithEnvironment] writes for it
    is this value capped at 35, a percentage of at most 35; the segments of
    [analyzeTextLocally] carry 35%; the conversion of a segment of the reply
    sets the field from the rhythm alone; and for any segment whatever the
    rate written is a percentage of at most 35, or [NaN%] when the field
    has no number.  No lower bound by vocal type is part of it. *)
Theorem prosody_speed_capped (text : jsstring) (outcome : FetchOutcome) :
  Forall (fun d => SpeedOutcome d
                   /\ exists n, prosodySpeed d = percent (Some n) /\ (n <= 35)%Z)
    (analyzeTextEnvironments text outcome)
  /\ Forall (fun d => speedField d = Some (lit "35%")) (analyzeTextLocally text)
  /\ (forall s : EnhancedSegment,
        speedField (convertSegment s)
        = Some (if rhythm (vocal s) === "très lent" then lit "25%"
                else if rhythm (vocal s) === "lent" then lit "35%"
                else if rhythm (vocal s) === "rapide" then lit "55%"
                else lit "45%"))
  /\ (forall d : EnvironmentDetection,
        prosodySpeed d = lit "NaN%"
        \/ exists n, prosodySpeed d = percent (Some n) /\ (n <= 35)%Z).
Proof.
  split; [|split; [|split; [reflexivity|]]].
  - assert (H : Forall SpeedOutcome (analyzeTextEnvironments text outcome)).
    { unfold analyzeTextEnvironments, convertSegments.
      destruct (analyzeTextWithGrok text outcome) as [segs|].
      - apply addTiming_Forall; [intros seg c t H; exact H|].
        apply Forall_map, Forall_forall. intros s _. apply convertSegment_speed.
      - eapply Forall_impl; [|apply analyzeTextLocally_speed].
        intros d [Hf Hp]. right; left. now split. }
    eapply Forall_impl; [|exact H].
    intros d Hd. split; [assumption | now apply SpeedOutcome_bounded].
  - eapply Forall_impl; [|apply analyzeTextLocally_speed]. now intros d [Hf _].
  - apply prosodySpeed_bounded.
Qed.

(** C1, as stated, fails: the segment of rhythm [rapide] carries the
    [speed] 55%, and the segment of vocal type [jouissance] and rhythm
    [très lent] is read at 25%, under the 32% of its tier. *)
Lemma speed_field_exceeds_35 :
  ~ Forall SpeedAtMost35 (analyzeTextEnvironments (lit "Viens Oui") fastAndSlow)
  /\ exists d,
       nth_error (analyzeTextEnvironments (lit "Viens Oui") fastAndSlow) 1 = Some d
       /\ prosodySpeed d = percent (Some 25%Z)
       /\ tierFloor (lit "jouissance") = Some 32%Z.
Proof.
  split.
  - intros H. apply Forall_inv in H. destruct H as [s [n [Hs [Hn Hle]]]].
    vm_compute in Hs. injection Hs as <-.
    vm_compute in Hn. injection Hn as <-. lia.
  - eexists. split; [reflexivity|]. split; reflexivity.
Qed.

Lemma requestFails_default text outcome :
  RequestFails outcome -> analyzeTextWithGrok text outcome = Segments [defaultSegment text].
Proof.
  intros [->|[response [-> [Hok|Hparse]]]]; unfold analyzeTextWithGrok; cbn [requestSegments].
  - reflexivity.
  - now rewrite Hok.
  - destruct (ok response); cbn [negb]; [now rewrite Hparse | reflexivity].
Qed.

(** C6, as the code has it.  When the request fails ([fetch] rejects, the
    status is not a success, or no JSON is read), the [try] block of
    [analyzeTextWithGrok] raises and its own [catch] branch answers: the
    function does not fail, it returns the default segment for the whole
    text.  [analyzeTextEnvironments] then returns exactly one segment, which
    carries the default parameters and starts at 0; the local analysis is
    not what produces it. *)
Theorem remote_failure_default_segment (text : jsstring) (outcome : FetchOutcome) :
  RequestFails outcome ->
  (exists e, requestSegments outcome = inl e)
  /\ analyzeTextWithGrok text outcome = Segments [defaultSegment text]
  /\ exists d,
       analyzeTextEnvironments text outcome = [d]
       /\ CarriesDefaults d
       /\ startTime d = Some 0.
Proof.
  intros Hfail.
  pose proof (requestFails_default text Hfail) as Hgrok.
  assert (He : exists e, requestSegments outcome = inl e).
  { destruct Hfail as [->|[response [-> [Hok|Hparse]]]]; cbn [requestSegments].
    - now eexists.
    - rewrite Hok. now eexists.
    - destruct (ok response); cbn [negb]; [rewrite Hparse|]; now eexists. }
  destruct He as [e He].
  split; [now exists e|]. split; [assumption|].
  unfold analyzeTextEnvironments. rewrite Hgrok.
  cbn [convertSegments map addTiming addTiming_from List.length].
  eexists. split; [reflexivity|].
  split; [|reflexivity].
  unfold CarriesDefaults; cbn [withTiming environment soundEffects emotionalTone speechRate
    volume elevenlabsParams expressionDetails convertSegment].
  repeat split; reflexivity.
Qed.

Lemma remote_failure_default_segment_witness :
  RequestFails serverError
  /\ requestSegments serverError = inl (ApiError 500 (lit "Internal Server Error"))
  /\ exists d,
       analyzeTextEnvironments (lit "Elle soupire sur la plage.") serverError = [d]
       /\ CarriesDefaults d /\ startTime d = Some 0.
Proof.
  assert (Hfail : RequestFails serverError).
  { right. eexists. split; [reflexivity|]. left. reflexivity. }
  split; [exact Hfail|]. split; [reflexivity|].
  apply (@remote_failure_default_segment (lit "Elle soupire sur la plage.") serverError Hfail).
Defined.

(** C6, as stated, fails on its first two parts: on a status 500
    [analyzeTextWithGrok] does not fail, it returns the default segment;
    and the local analysis is not run: on a text that names the beach and a
    sigh it would give the environment [plage] and the tone [excite], and
    the result has [chambre] and [sensuel]. *)
Lemma adapter_recovers_without_local_analysis :
  analyzeTextWithGrok (lit "Elle soupire sur la plage.") serverError
  = Segments [defaultSegment (lit "Elle soupire sur la plage.")]
  /\ map environment (analyzeTextEnvironments (lit "Elle soupire sur la plage.") serverError)
     = [lit "chambre"]
  /\ map emotionalTone (analyzeTextEnvironments (lit "Elle soupire sur la plage.") serverError)
     = [lit "sensuel"]
  /\ map environment (analyzeTextLocally (lit "Elle soupire sur la plage."))
     = [lit "plage"]
  /\ map emotionalTone (analyzeTextLocally (lit "Elle soupire sur la plage."))
     = [lit "excite"]
  /\ analyzeTextEnvironments (lit "Elle soupire sur la plage.") serverError
     <> analyzeTextLocally (lit "Elle soupire sur la plage.").
Proof.
  split; [reflexivity|]. split; [reflexivity|]. split; [reflexivity|].
  split; [reflexivity|]. split; [reflexivity|].
  intros H. apply (f_equal (map environment)) in H. vm_compute in H. discriminate.
Qed.

End PipelineFacts.

(** ** Empty and blank texts *)

Module BlankTextFacts.

Import JsString Grok ElevenLabsAPI Properties Examples JsStringFacts TimingFacts ConversionFacts.
Import PipelineFacts RegexFacts.
Local Open Scope Q_scope.

Lemma filter_none (A : Type) (f : A -> bool) (l : list A) :
  Forall (fun x => f x = false) l -> filter f l = [].
Proof.
  induction 1 as [|x l Hx Hl IH]; simpl; [reflexivity|]. now rewrite Hx.
Qed.

Lemma paragraphs_blank text :
  whitespaceOnly text = true ->
  filter (fun p => (0 <? List.length (trim p))%nat) (split re_blank_lines text) = [].
Proof.
  intros H. apply filter_none.
  apply whitespaceOnly_Forall in H.
  eapply Forall_impl; [|apply split_from_Forall; [exact H | constructor]].
  intros piece Hpiece. apply whitespaceOnly_Forall in Hpiece.
  now rewrite (trim_whitespace _ Hpiece).
Qed.

Lemma analyzeTextLocally_blank text :
  whitespaceOnly text = true ->
  analyzeTextLocally text
  = [withTiming (localSegment text) 0 (calculateTiming text (lit "lent"))].
Proof.
  intros H. unfold analyzeTextLocally. now rewrite (paragraphs_blank _ H).
Qed.

Lemma estimatedDuration_blank text :
  whitespaceOnly text = true ->
  estimatedDuration (calculateTiming text (lit "lent")) = 1 / 1.5.
Proof.
  intros H. unfold calculateTiming; cbn [estimatedDuration].
  now rewrite (trim_whitespace _ H).
Qed.

Lemma segmentText_blank segs :
  whitespaceOnly (text segs) = true -> segmentText segs = text segs.
Proof.
  intros H. unfold segmentText. now rewrite (cleanSegmentText_whitespace _ H).
Qed.

(** C5, as the code has it.  On a text that is empty or made of white
    space only, [analyzeTextEnvironments] does not fail and returns
    segments.  When the request fails, or when the payload is ill typed and
    the local analysis runs, it returns exactly one segment, whose text is
    the input itself, at the rate [lent], starting at 0, of duration
    1 / 1.5 s (one word); otherwise it returns the conversion of the
    segments of the reply. *)
Theorem blank_text_single_segment (text : jsstring) (outcome : FetchOutcome) :
  whitespaceOnly text = true ->
  (exists d,
      (RequestFails outcome \/ analyzeTextWithGrok text outcome = IllTyped)
      /\ analyzeTextEnvironments text outcome = [d]
      /\ segment d = text
      /\ speechRate d = lit "lent"
      /\ startTime d = Some 0
      /\ duration d = Some (1 / 1.5))
  \/ (exists segs,
         requestSegments outcome = inr (Segments segs)
         /\ analyzeTextEnvironments text outcome = addTiming (map convertSegment segs)).
Proof.
  intros Hblank.
  assert (Hcases : RequestFails outcome
                   \/ analyzeTextWithGrok text outcome = IllTyped
                   \/ exists segs, requestSegments outcome = inr (Segments segs)).
  { unfold analyzeTextWithGrok, RequestFails.
    destruct outcome as [|response]; [left; now left|]. cbn [requestSegments].
    destruct (ok response) eqn:Hok; cbn [negb].
    - destruct (parsedResponse response) as [[segs|]|] eqn:Hp.
      + right; right. now exists segs.
      + right; left. reflexivity.
      + left; right. exists response. auto.
    - left; right. exists response. auto. }
  destruct Hcases as [Hfail|[Hill|[segs Hsegs]]].
  - left. unfold analyzeTextEnvironments.
    rewrite (requestFails_default text Hfail).
    cbn [convertSegments map addTiming addTiming_from List.length].
    eexists. split; [now left|]. split; [reflexivity|].
    cbn [withTiming segment speechRate startTime duration convertSegment].
    assert (Hseg : segmentText (defaultSegment text) = text)
      by (now apply segmentText_blank).
    rewrite Hseg. repeat split.
    f_equal. now apply estimatedDuration_blank.
  - left. unfold analyzeTextEnvironments.
    rewrite Hill. cbn [convertSegments]. rewrite (analyzeTextLocally_blank _ Hblank).
    eexists. split; [now right|]. split; [reflexivity|].
    cbn [withTiming segment speechRate startTime duration localSegment].
    repeat split. f_equal. now apply estimatedDuration_blank.
  - right. exists segs. split; [assumption|].
    unfold analyzeTextEnvironments, analyzeTextWithGrok. now rewrite Hsegs.
Qed.

Lemma blank_text_single_segment_witness :
  whitespaceOnly (lit "  ") = true
  /\ exists d,
       analyzeTextEnvironments (lit "  ") NetworkFailure = [d]
       /\ segment d = lit "  "
       /\ speechRate d = lit "lent"
       /\ startTime d = Some 0
       /\ duration d = Some (1 / 1.5).
Proof.
  split; [reflexivity|].
  destruct (@blank_text_single_segment (lit "  ") NetworkFailure eq_refl)
    as [[d [_ H]]|[segs [H _]]]; [|discriminate].
  now exists d.
Defined.

(** C5, as stated, fails: on the empty text and on three blanks, with a
    failed request, a segment is returned, of two thirds of a second. *)
Lemma blank_text_returns_segments :
  (exists d, analyzeTextEnvironments [] NetworkFailure = [d]
             /\ segment d = [] /\ duration d = Some (1 / 1.5))
  /\ (exists d, analyzeTextEnvironments (lit "   ") serverError = [d]
                /\ segment d = lit "   " /\ duration d = Some (1 / 1.5)).
Proof. split; eexists; (split; [reflexivity|]); split; reflexivity. Qed.

End BlankTextFacts.

(** ** mapEnvironmentToSounds on empty and blank inputs *)

Module EnvironmentFacts.

Import JsString Grok Properties Examples JsStringFacts.
Local Open Scope N_scope.

Lemma isSpace_range c :
  isSpace c = true ->
  (9 <= c <= 13) \/ c = 32 \/ c = 160 \/ c = 5760 \/ (8192 <= c <= 8202)
  \/ c = 8232 \/ c = 8233 \/ c = 8239 \/ c = 8287 \/ c = 12288 \/ c = 65279.
Proof.
  unfold isSpace. rewrite !orb_true_iff, !andb_true_iff, !N.leb_le, !N.eqb_eq. tauto.
Qed.

Lemma toLowerCase_unit_space c : isSpace c = true -> toLowerCase_unit c = c.
Proof.
  intros H. apply isSpace_range in H. unfold toLowerCase_unit.
  destruct ((65 <=? c) && (c <=? 90) || (192 <=? c) && (c <=? 222) && negb (c =? 215)) eqn:E;
    [|reflexivity].
  rewrite !orb_true_iff, !andb_true_iff, !N.leb_le in E. lia.
Qed.

Lemma assoc_latin1_none c :
  c < 192 \/ 221 < c -> assoc c latin1_decompositions = None.
Proof.
  intros H. unfold latin1_decompositions. cbn [assoc].
  repeat match goal with
         | |- context [c =? ?k] =>
             destruct (c =? k) eqn:?E; [apply N.eqb_eq in E; lia | clear E]
         end.
  reflexivity.
Qed.

Lemma nfd_unit_space c :
  isSpace c = true -> exists c', nfd_unit c = [c'] /\ isSpace c' = true.
Proof.
  intros H. pose proof (@isSpace_range c H) as Hr. unfold nfd_unit.
  destruct (c =? 8192) eqn:E1; [now exists 8194|].
  destruct (c =? 8193) eqn:E2; [now exists 8195|].
  apply N.eqb_neq in E1, E2.
  destruct (c =? 255) eqn:E3; [apply N.eqb_eq in E3; lia|].
  rewrite !assoc_latin1_none by lia.
  now exists c.
Qed.

Lemma isCombiningMark_space c : isSpace c = true -> isCombiningMark c = false.
Proof.
  intros H. apply isSpace_range in H. unfold isCombiningMark.
  apply andb_false_iff. rewrite !N.leb_gt. lia.
Qed.

Lemma forallb_toLowerCase s : whitespaceOnly s = true -> toLowerCase s = s.
Proof.
  unfold whitespaceOnly, toLowerCase.
  induction s as [|x s IH]; simpl; [reflexivity|].
  intros H. apply andb_true_iff in H as [Hx Hs].
  now rewrite toLowerCase_unit_space, IH.
Qed.

Lemma normalizeNFD_space s :
  whitespaceOnly s = true ->
  whitespaceOnly (normalizeNFD s) = true /\ (s <> [] -> normalizeNFD s <> []).
Proof.
  unfold whitespaceOnly, normalizeNFD.
  induction s as [|x s IH]; simpl; [intros _; split; [reflexivity|congruence]|].
  intros H. apply andb_true_iff in H as [Hx Hs].
  destruct (@nfd_unit_space x Hx) as [x' [-> Hx']]. simpl.
  rewrite Hx'. split; [now apply IH | discriminate].
Qed.

Lemma replaceAll_marks_space s :
  whitespaceOnly s = true -> replaceAll [Atom isCombiningMark One] [] s = s.
Proof.
  unfold whitespaceOnly, replaceAll.
  induction s as [|x s IH]; simpl; [reflexivity|].
  intros H. apply andb_true_iff in H as [Hx Hs].
  rewrite (@isCombiningMark_space x Hx). now rewrite IH.
Qed.

Lemma star_all c s :
  forallb c s = true -> star (fun r => Some r) c s = Some [].
Proof.
  induction s as [|x s IH]; simpl; [reflexivity|].
  intros H. apply andb_true_iff in H as [Hx Hs]. now rewrite Hx, IH.
Qed.

Lemma replaceAll_from_skip p r s :
  matchHere p false [] = None -> replaceAll_from p r (List.length s) s = [].
Proof.
  intros Hp. induction s as [|x s IH]; simpl; [now rewrite Hp | exact IH].
Qed.

Lemma replaceAll_spaces_whitespace r s :
  s <> [] -> whitespaceOnly s = true -> replaceAll re_spaces r s = r.
Proof.
  unfold whitespaceOnly. destruct s as [|x s]; [congruence|]. intros _ H.
  simpl in H. apply andb_true_iff in H as [Hx Hs].
  unfold replaceAll, re_spaces. cbn [replaceAll_from matchHere rep cls].
  rewrite Hx. cbn [matchHere]. rewrite (star_all _ _ Hs).
  cbn [List.length Nat.sub]. rewrite replaceAll_from_skip by reflexivity.
  apply app_nil_r.
Qed.

Lemma normalizeEnvironment_whitespace s :
  s <> [] -> whitespaceOnly s = true -> normalizeEnvironment s = lit "_".
Proof.
  intros Hne Hs. unfold normalizeEnvironment.
  rewrite (forallb_toLowerCase _ Hs).
  destruct (normalizeNFD_space _ Hs) as [Hn Hne'].
  rewrite (replaceAll_marks_space _ Hn).
  apply replaceAll_spaces_whitespace; auto.
Qed.

Lemma includes_nil s : includes s [] = true.
Proof. destruct s; reflexivity. Qed.

(** C9, as the code has it.  On the empty string [mapEnvironmentToSounds]
    returns the two sounds of [plage], the first entry of the catalog,
    because every key contains the empty string.  On a string of white space
    only that is not empty, the normalized input is one underscore and the
    default entry is returned. *)
Theorem empty_environment_maps_to_plage :
  mapEnvironmentToSounds [] = plageSounds
  /\ (forall key : jsstring, includes key [] = true)
  /\ (forall s : jsstring,
        s <> [] -> whitespaceOnly s = true ->
        normalizeEnvironment s = lit "_" /\ mapEnvironmentToSounds s = defaultSounds).
Proof.
  split; [reflexivity|]. split; [apply includes_nil|].
  intros s Hne Hs.
  pose proof (@normalizeEnvironment_whitespace s Hne Hs) as Hn.
  split; [assumption|].
  unfold mapEnvironmentToSounds. rewrite Hn. reflexivity.
Qed.

Lemma empty_environment_maps_to_plage_witness :
  lit "  " <> [] /\ whitespaceOnly (lit "  ") = true
  /\ normalizeEnvironment (lit "  ") = lit "_"
  /\ mapEnvironmentToSounds (lit "  ") = defaultSounds.
Proof.
  split; [discriminate|]. split; [reflexivity|].
  destruct empty_environment_maps_to_plage as [_ [_ H]].
  apply (H (lit "  ")); [discriminate | reflexivity].
Defined.

(** C9, as stated, fails on one blank: it is normalized to an underscore,
    no key matches, and the default entry is returned, not the sounds of
    [plage]. *)
Lemma blank_environment_maps_to_default :
  whitespaceOnly (lit " ") = true
  /\ mapEnvironmentToSounds (lit " ") = defaultSounds
  /\ mapEnvironmentToSounds (lit " ") <> plageSounds.
Proof. split; [reflexivity|]. split; [reflexivity|]. vm_compute. discriminate. Qed.

End EnvironmentFacts.

(** ** getVoiceSettings *)

Module VoiceSettingsFacts.

Import JsString VoiceSettings VoiceProperties JsStringFacts.
Local Open Scope Q_scope.

Lemma clamp_bounds lo hi x : lo <= hi -> lo <= Qmax lo (Qmin hi x) <= hi.
Proof.
  intros H. split.
  - apply Q.le_max_l.
  - apply Q.max_lub; [assumption | apply Q.le_min_l].
Qed.

Lemma lookup_In key table v : lookup key table = Some v -> In (key, v) table.
Proof.
  induction table as [|[k w] rest IH]; simpl; [discriminate|].
  destruct (eqb key k) eqn:E.
  - intros [= <-]. apply JsStringFacts.eqb_eq in E. subst. now left.
  - intros H. right. now apply IH.
Qed.

Lemma lookup_None key table :
  lookup key table = None -> forall v, ~ In (key, v) table.
Proof.
  induction table as [|[k w] rest IH]; simpl; intros H v; [tauto|].
  destruct (eqb key k) eqn:E; [discriminate|]. intros [Hin|Hin].
  - injection Hin as -> _. rewrite eqb_refl in E. discriminate.
  - now apply (IH H v).
Qed.

(** No key of the table is a name that every object inherits. *)
Lemma own_not_inherited emotion settings :
  lookup emotion baseSettings = Some settings -> inheritedMember emotion = false.
Proof.
  unfold baseSettings. cbn [lookup].
  repeat match goal with
         | |- context [eqb emotion ?k] =>
             let E := fresh "E" in
             destruct (eqb emotion k) eqn:E;
             [apply eqb_eq in E; subst; intros _; vm_compute; reflexivity|]
         end.
  discriminate.
Qed.

Lemma baseSettings_numeric emotion settings :
  In (emotion, settings) baseSettings ->
  exists bs bb,
    stability settings = Num bs /\ similarity_boost settings = Num bb
    /\ 0 < bs /\ 0 < bb.
Proof.
  unfold baseSettings. cbn [In]. intros H.
  repeat (destruct H as [H|H];
          [injection H as _ <-; eexists _, _; repeat split; reflexivity|]).
  destruct H.
Qed.

Lemma settingsFor_cases emotion :
  inheritedMember emotion = false ->
  BaseOf emotion (settingsFor emotion)
  /\ exists bs bb,
       stability (settingsFor emotion) = Num bs
       /\ similarity_boost (settingsFor emotion) = Num bb
       /\ 0 < bs /\ 0 < bb.
Proof.
  intros Hown. unfold settingsFor, BaseOf.
  destruct (lookup emotion baseSettings) as [settings|] eqn:E.
  - apply lookup_In in E. split; [now left|]. now apply baseSettings_numeric in E.
  - rewrite Hown. split.
    + right. split; [now apply lookup_None | reflexivity].
    + eexists _, _. repeat split; reflexivity.
Qed.

Lemma settingsFor_inherited emotion :
  inheritedMember emotion = true ->
  settingsFor emotion = {| stability := NaN; similarity_boost := NaN |}.
Proof.
  intros H. unfold settingsFor.
  destruct (lookup emotion baseSettings) as [settings|] eqn:E.
  - apply own_not_inherited in E. congruence.
  - now rewrite H.
Qed.

(** C4, as the code has it.  For every label that is no name that every
    object inherits, and every analysis, the base is the entry of the table
    under this label, or that of [sensuel] when the table has no such key;
    the stability returned by [getVoiceSettings] is in [0.15, 0.75] and the
    similarity boost in [0.75, 0.98]; the stability is the clamp of
    base * (1 - intensity * 0.3), the intensity of the analysis taken as it
    is, and the similarity boost the clamp of base + progression * 0.15.
    The formula with intensity / 100 is what is computed when the analysis
    holds a percentage divided by 100.  For a label that every object
    inherits, such as [constructor], both settings are [NaN]. *)
Theorem voice_settings_bounds (emotion : jsstring) (analysis : TextAnalysis) :
  let base := settingsFor emotion in
  let result := getVoiceSettings emotion analysis in
  (inheritedMember emotion = false ->
   BaseOf emotion base
   /\ WithinBounds result
   /\ exists bs bb,
        stability base = Num bs /\ similarity_boost base = Num bb
        /\ stability result
           = Num (Qmax 0.15 (Qmin 0.75 (bs * (1 - intensity analysis * 0.3))))
        /\ similarity_boost result
           = Num (expressivenessBySpec bb (emotionalProgression analysis))
        /\ (forall percentage,
              stability (getVoiceSettings emotion
                           {| intensity := percentage / 100;
                              emotionalProgression := emotionalProgression analysis |})
              = Num (stabilityBySpec bs percentage)))
  /\ (inheritedMember emotion = true ->
      stability result = NaN /\ similarity_boost result = NaN).
Proof.
  cbv zeta. split.
  - intros Hown. destruct (settingsFor_cases emotion Hown) as [Hbase (bs & bb & Hs & Hb & _)].
    split; [exact Hbase|].
    unfold WithinBounds, getVoiceSettings;
      cbn [stability similarity_boost intensity emotionalProgression].
    rewrite Hs, Hb. cbn [times plus mathMin mathMax].
    split.
    + eexists _, _. split; [reflexivity|]. split; [reflexivity|].
      split; apply clamp_bounds; discriminate.
    + exists bs, bb. repeat split; reflexivity.
  - intros Hin. unfold getVoiceSettings. rewrite (settingsFor_inherited _ Hin).
    split; reflexivity.
Qed.

Lemma voice_settings_bounds_witness :
  WithinBounds (getVoiceSettings (lit "excite")
                  {| intensity := 1; emotionalProgression := 1 |})
  /\ BaseOf (lit "tendre") sensuel
  /\ stability (getVoiceSettings (lit "toString")
                  {| intensity := 1; emotionalProgression := 1 |}) = NaN.
Proof.
  pose proof (voice_settings_bounds (lit "excite")
                {| intensity := 1; emotionalProgression := 1 |}) as [Hexcite _].
  pose proof (voice_settings_bounds (lit "tendre")
                {| intensity := 1; emotionalProgression := 1 |}) as [Htendre _].
  pose proof (voice_settings_bounds (lit "toString")
                {| intensity := 1; emotionalProgression := 1 |}) as [_ Hinherited].
  split; [apply Hexcite; vm_compute; reflexivity|].
  split; [apply Htendre; vm_compute; reflexivity|].
  apply Hinherited. vm_compute; reflexivity.
Defined.

(** C4, as stated, fails twice.  On the formula: for [sensuel] and an
    analysis of intensity 1 the stability is 0.55 * 0.7 = 0.385, and the
    formula with intensity / 100 gives 0.55 * 0.997 = 0.54835.  On the
    labels: [constructor] is no key of the table, but the table inherits a
    member of this name, which is used as the base, and both settings are
    [NaN], within no bounds. *)
Lemma settings_not_as_stated : ~ StabilityAsSpecified /\ ~ BoundedForEveryLabel.
Proof.
  split; intros H.
  - destruct (H (lit "sensuel") {| intensity := 1; emotionalProgression := 0 |})
      as (base & s & Hb & Hs & E).
    vm_compute in Hb, Hs. injection Hb as <-. injection Hs as <-.
    vm_compute in E. discriminate.
  - destruct (H (lit "constructor") {| intensity := 1; emotionalProgression := 0 |})
      as (s & b & Hs & _).
    vm_compute in Hs. discriminate.
Qed.

End VoiceSettingsFacts.

Module MoreTimingFacts.
Import JsString Grok Properties Examples MoreProperties.
Import JsStringFacts RegexFacts TimingFacts ConversionFacts.
Local Open Scope Q_scope.

Lemma wordCount_pos text : (1 <= wordCount text)%nat.
Proof.
  unfold wordCount. pose proof (@split_from_nonempty re_spaces (trim text) 0 []) as H.
  unfold split. destruct (split_from re_spaces 0 [] (trim text)); [contradiction|simpl; lia].
Qed.

Lemma rate_cases (rate : jsstring) (n : Q) :
  let w := if rate === "très lent" then 1.0
           else if rate === "lent" then 1.5
           else if rate === "modéré" then 2.0
           else 2.5 in
  0 <= n -> n / 2.5 <= n / w /\ n / w <= n.
Proof.
  cbv zeta. intros Hn.
  assert (E : n == n / 2.5 * 2.5) by (field; discriminate).
  destruct (rate === "très lent"); [|destruct (rate === "lent"); [|destruct (rate === "modéré")]].
  - assert (F : n == n / 1.0 * 1.0) by (field; discriminate).
    set (a := n / 2.5) in *. set (b := n / 1.0) in *. lra.
  - assert (F : n == n / 1.5 * 1.5) by (field; discriminate).
    set (a := n / 2.5) in *. set (b := n / 1.5) in *. lra.
  - assert (F : n == n / 2.0 * 2.0) by (field; discriminate).
    set (a := n / 2.5) in *. set (b := n / 2.0) in *. lra.
  - set (a := n / 2.5) in *. lra.
Qed.

(** X1.  Durations and fades of [calculateTiming], for every text and
    every rate label.  The text counts at least one word; the estimated
    duration lies between a word count taken at 2.5 words per second and
    the word count itself, so it is at least 0.4 s; the two fades are equal,
    positive, at most 1 s and at most a tenth of the duration, and together
    they are shorter than the segment. *)
Theorem timing_bounds (text rate : jsstring) :
  let timing := calculateTiming text rate in
  let n := inject_Z (Z.of_nat (wordCount text)) in
  let d := estimatedDuration timing in
  1 <= n
  /\ n / 2.5 <= d /\ d <= n
  /\ 2 # 5 <= d
  /\ timing_fadeIn timing = timing_fadeOut timing
  /\ 0 < timing_fadeIn timing /\ timing_fadeIn timing <= 1
  /\ timing_fadeIn timing <= d * 0.1
  /\ timing_fadeIn timing + timing_fadeOut timing < d.
Proof.
  cbv zeta.
  assert (Hn : 1 <= inject_Z (Z.of_nat (wordCount text))).
  { pose proof (wordCount_pos text). unfold Qle; simpl. lia. }
  assert (Hd : estimatedDuration (calculateTiming text rate)
               = inject_Z (Z.of_nat (wordCount text))
                 / (if rate === "très lent" then 1.0
                    else if rate === "lent" then 1.5
                    else if rate === "modéré" then 2.0
                    else 2.5)) by reflexivity.
  destruct (@rate_cases rate (inject_Z (Z.of_nat (wordCount text)))) as [Hlo Hhi]; [lra|].
  rewrite <- Hd in Hlo, Hhi.
  assert (Hmin : 2 # 5 <= estimatedDuration (calculateTiming text rate)).
  { eapply Qle_trans; [|exact Hlo]. apply Qle_shift_div_l; [reflexivity|lra]. }
  assert (Hf : timing_fadeIn (calculateTiming text rate)
               = Qmin 1.0 (estimatedDuration (calculateTiming text rate) * 0.1))
    by reflexivity.
  assert (Hg : timing_fadeOut (calculateTiming text rate)
               = Qmin 1.0 (estimatedDuration (calculateTiming text rate) * 0.1))
    by reflexivity.
  set (d := estimatedDuration (calculateTiming text rate)) in *.
  pose proof (Q.le_min_l 1.0 (d * 0.1)) as H1.
  pose proof (Q.le_min_r 1.0 (d * 0.1)) as H2.
  assert (H3 : 0 < Qmin 1.0 (d * 0.1)) by (apply Q.min_glb_lt; lra).
  rewrite Hg, Hf.
  repeat split; try assumption; try lra.
Qed.

Lemma trimStart_app_whitespace pre s :
  whitespaceOnly pre = true -> trimStart (pre ++ s) = trimStart s.
Proof.
  unfold whitespaceOnly. induction pre as [|x pre IH]; simpl; [reflexivity|].
  intros H. apply andb_true_iff in H as [-> Hpre]. now apply IH.
Qed.

Lemma whitespaceOnly_rev s : whitespaceOnly (rev s) = whitespaceOnly s.
Proof.
  unfold whitespaceOnly. induction s as [|x s IH]; simpl; [reflexivity|].
  rewrite forallb_app, IH. simpl. rewrite andb_true_r. apply andb_comm.
Qed.

Lemma trimEnd_app_whitespace s post :
  whitespaceOnly post = true -> trimEnd (s ++ post) = trimEnd s.
Proof.
  intros H. unfold trimEnd. rewrite rev_app_distr.
  rewrite trimStart_app_whitespace; [reflexivity|]. now rewrite whitespaceOnly_rev.
Qed.

Lemma trim_padded pre s post :
  whitespaceOnly pre = true -> whitespaceOnly post = true ->
  trim (pre ++ s ++ post) = trim s.
Proof.
  intros Hpre Hpost. unfold trim. rewrite (@trimStart_app_whitespace pre _ Hpre).
  induction s as [|x s IH]; simpl.
  - rewrite (trimStart_whitespace _ Hpost). reflexivity.
  - destruct (isSpace x); [exact IH|].
    exact (@trimEnd_app_whitespace (x :: s) post Hpost).
Qed.

Lemma startsWith_app_whitespace pat : forall s post,
  forallb (fun c => negb (isSpace c)) pat = true ->
  whitespaceOnly post = true ->
  pat <> [] ->
  startsWith (s ++ post) pat = startsWith s pat.
Proof.
  induction pat as [|p pat IH]; intros s post Hpat Hpost Hne; [congruence|].
  simpl in Hpat. apply andb_true_iff in Hpat as [Hp Hpat].
  destruct s as [|x s]; simpl.
  - destruct post as [|w post]; [reflexivity|]. simpl.
    unfold whitespaceOnly in Hpost. simpl in Hpost.
    apply andb_true_iff in Hpost as [Hw _].
    destruct (N.eqb_spec w p) as [->|]; [|reflexivity].
    rewrite Hw in Hp. discriminate.
  - destruct pat as [|q pat]; [now rewrite !andb_true_r|].
    f_equal. apply IH; [assumption|assumption|discriminate].
Qed.

Lemma includes_whitespace_none pat post :
  forallb (fun c => negb (isSpace c)) pat = true -> pat <> [] ->
  whitespaceOnly post = true -> includes post pat = false.
Proof.
  intros Hpat Hne. destruct pat as [|p pat]; [congruence|].
  simpl in Hpat. apply andb_true_iff in Hpat as [Hp _].
  unfold whitespaceOnly. induction post as [|w post IH]; simpl; [reflexivity|].
  intros H. apply andb_true_iff in H as [Hw Hpost].
  rewrite (IH Hpost), orb_false_r.
  destruct (N.eqb_spec w p) as [->|]; [|reflexivity].
  rewrite Hw in Hp. discriminate.
Qed.

Lemma includes_padded pat pre s post :
  forallb (fun c => negb (isSpace c)) pat = true -> pat <> [] ->
  whitespaceOnly pre = true -> whitespaceOnly post = true ->
  includes (pre ++ s ++ post) pat = includes s pat.
Proof.
  intros Hpat Hne Hpre Hpost.
  assert (Hright : includes (s ++ post) pat = includes s pat).
  { induction s as [|x s IH].
    - simpl app. rewrite (@includes_whitespace_none pat post Hpat Hne Hpost).
      destruct pat; [congruence|reflexivity].
    - cbn [app includes]. rewrite IH.
      now rewrite <- (@startsWith_app_whitespace pat (x :: s) post Hpat Hpost Hne). }
  unfold whitespaceOnly in Hpre. induction pre as [|w pre IH]; [exact Hright|].
  simpl in Hpre. apply andb_true_iff in Hpre as [Hw Hpre].
  cbn [app includes]. rewrite (IH Hpre).
  destruct pat as [|p pat]; [congruence|].
  simpl in Hpat. apply andb_true_iff in Hpat as [Hp _].
  cbn [startsWith]. destruct (N.eqb_spec w p) as [->|]; [|reflexivity].
  rewrite Hw in Hp. discriminate.
Qed.

(** X2.  White space before and after a text changes nothing in its timing:
    [calculateTiming] gives the same duration, fades and transition for the
    padded text as for the text itself. *)
Theorem timing_ignores_padding (pre text post rate : jsstring) :
  whitespaceOnly pre = true -> whitespaceOnly post = true ->
  calculateTiming (pre ++ text ++ post) rate = calculateTiming text rate.
Proof.
  intros Hpre Hpost. unfold calculateTiming.
  rewrite (@trim_padded pre text post Hpre Hpost).
  rewrite (@includes_padded (lit "...") pre text post); try assumption;
    [reflexivity | reflexivity | discriminate].
Qed.

Lemma timing_ignores_padding_witness :
  whitespaceOnly (lit "  ") = true /\ whitespaceOnly [10%N] = true
  /\ calculateTiming (lit "  " ++ lit "Oh... oui" ++ [10%N]) (lit "lent")
     = calculateTiming (lit "Oh... oui") (lit "lent").
Proof.
  split; [reflexivity|]. split; [reflexivity|].
  apply (@timing_ignores_padding (lit "  ") (lit "Oh... oui") [10%N] (lit "lent"));
    reflexivity.
Defined.

End MoreTimingFacts.

Module MoreConversionFacts.
Import JsString Grok ElevenLabsAPI ElevenLabsVoice Properties Examples MoreProperties.
Import JsStringFacts RegexFacts CleaningFacts TimingFacts ConversionFacts PipelineFacts.
Local Open Scope Q_scope.

Lemma Qltb_true a b : Qltb a b = true <-> a < b.
Proof. unfold Qltb. apply (Qgtb_true b a). Qed.

Lemma Qltb_false a b : Qltb a b = false <-> b <= a.
Proof. unfold Qltb. apply (Qgtb_false b a). Qed.

(** X4.  Tone and volume of a segment converted by
    [analyzeTextEnvironments] go together.  The volume is [fort] exactly
    above an intensity of 80 and [doux] exactly below 50; a [fort] segment
    has the tone [excite]; the tone [intense] comes with the volume [normal]
    and an intensity in (70, 80], the tone [doux] with the volume [doux],
    and the tone [sensuel] with the volume [normal] and an intensity in
    [50, 70]. *)
Theorem tone_and_volume (s : EnhancedSegment) :
  let d := convertSegment s in
  let i := intensity (vocal s) in
  (volume d = lit "fort" <-> 80 < i)
  /\ (volume d = lit "doux" <-> i < 50)
  /\ (volume d = lit "fort" -> emotionalTone d = lit "excite")
  /\ (emotionalTone d = lit "intense" -> volume d = lit "normal" /\ 70 < i /\ i <= 80)
  /\ (emotionalTone d = lit "doux" -> volume d = lit "doux")
  /\ (emotionalTone d = lit "sensuel" -> volume d = lit "normal" /\ 50 <= i /\ i <= 70).
Proof.
  cbv zeta. unfold convertSegment; cbn [volume emotionalTone].
  unfold deriveEmotionalTone, strictEq.
  destruct (Qgtb (intensity (vocal s)) 80) eqn:H80;
    [apply Qgtb_true in H80 | apply Qgtb_false in H80];
  (destruct (Qltb (intensity (vocal s)) 50) eqn:H50;
    [apply Qltb_true in H50 | apply Qltb_false in H50]);
  (destruct (Qgtb (intensity (vocal s)) 90) eqn:H90;
    [apply Qgtb_true in H90 | apply Qgtb_false in H90]);
  (destruct (Qgtb (intensity (vocal s)) 70) eqn:H70;
    [apply Qgtb_true in H70 | apply Qgtb_false in H70]);
  try (exfalso; lra);
  destruct (eqb (vocal_type (vocal s)) (lit "gémissement"));
  destruct (eqb (vocal_type (vocal s)) (lit "cri"));
  destruct (eqb (vocal_type (vocal s)) (lit "murmure"));
  destruct (eqb (vocal_type (vocal s)) (lit "chuchotement"));
  cbn [orb];
  repeat split; intros; repeat split;
  first [ reflexivity | assumption | lra | exfalso; lra
        | match goal with
          | H : lit _ = lit _ |- _ => vm_compute in H; discriminate
          end ].
Qed.

Lemma addTiming_nil_inv l : addTiming l = [] -> l = [].
Proof. destruct l; [reflexivity|discriminate]. Qed.

Lemma analyzeTextLocally_nonempty text : analyzeTextLocally text <> [].
Proof.
  unfold analyzeTextLocally. intros H. apply addTiming_nil_inv in H.
  apply map_eq_nil in H.
  destruct (filter _ (split re_blank_lines text)); discriminate.
Qed.

(** X5.  The number of segments [analyzeTextEnvironments] returns.  The
    result is empty exactly when the reply is a well-typed, empty list of
    segments; a well-typed reply gives one segment for each of its own; and
    a request that fails gives exactly one. *)
Theorem empty_result_only_for_empty_reply (text : jsstring) (outcome : FetchOutcome) :
  (analyzeTextEnvironments text outcome = []
   <-> requestSegments outcome = inr (Segments []))
  /\ (forall segs, requestSegments outcome = inr (Segments segs) ->
       List.length (analyzeTextEnvironments text outcome) = List.length segs)
  /\ (forall e, requestSegments outcome = inl e ->
       List.length (analyzeTextEnvironments text outcome) = 1%nat).
Proof.
  unfold analyzeTextEnvironments, analyzeTextWithGrok.
  destruct (requestSegments outcome) as [e|[segs|]]; cbn [convertSegments].
  - split; [split; discriminate|]. split; [discriminate|reflexivity].
  - split; [|split; [|discriminate]].
    + split; intros H.
      * apply addTiming_nil_inv, map_eq_nil in H. now subst.
      * injection H as ->. reflexivity.
    + intros segs' H. injection H as <-.
      unfold addTiming. now rewrite addTiming_from_length, length_map.
  - split; [|split; discriminate].
    split; [|discriminate]. intros H. now apply analyzeTextLocally_nonempty in H.
Qed.

(** X6.  The voice settings [generateVoiceWithEnvironment] sends for a
    segment of [analyzeTextEnvironments] are always the parameters of the
    segment, never those of [getVoiceSettings]: every segment carries
    parameters, and for a well-typed reply the settings sent are the
    stability and the similarity boost of the reply, as they came. *)
Theorem voice_settings_sent_unclamped (text : jsstring) (outcome : FetchOutcome)
    (analysis : VoiceSettings.TextAnalysis) :
  Forall (fun d => exists params,
              elevenlabsParams d = Some params
              /\ voiceSettingsSent d analysis
                 = {| VoiceSettings.stability := stability params;
                      VoiceSettings.similarity_boost := similarity_boost params |})
    (analyzeTextEnvironments text outcome)
  /\ (forall segs, requestSegments outcome = inr (Segments segs) ->
       map (fun d => voiceSettingsSent d analysis) (analyzeTextEnvironments text outcome)
       = map (fun s => {| VoiceSettings.stability := stability (elevenlabs s);
                          VoiceSettings.similarity_boost := similarity_boost (elevenlabs s) |})
           segs).
Proof.
  assert (Hkeep : forall seg c t,
             voiceSettingsSent (withTiming seg c t) analysis = voiceSettingsSent seg analysis)
    by reflexivity.
  split.
  - unfold analyzeTextEnvironments, convertSegments.
    destruct (analyzeTextWithGrok text outcome) as [segs|].
    + apply addTiming_Forall; [intros seg c t H; exact H|].
      apply Forall_map, Forall_forall. intros s _. eexists. split; reflexivity.
    + unfold analyzeTextLocally.
      apply addTiming_Forall; [intros seg c t H; exact H|].
      apply Forall_map, Forall_forall. intros s _. eexists. split; reflexivity.
  - intros segs H. unfold analyzeTextEnvironments, analyzeTextWithGrok. rewrite H.
    cbn [convertSegments]. unfold addTiming. clear H.
    generalize (List.length (map convertSegment segs)), 0%nat, 0.
    induction segs as [|s segs IH]; intros len i c; [reflexivity|].
    cbn [map addTiming_from]. rewrite IH. reflexivity.
Qed.

(** X7.  What the cleaning leaves for the choice of the transition.  When
    the cleaned text of a segment of the reply is kept, the text of the
    converted segment never ends with a dot; its transition is a cut only if
    the text ends with [!] or [?], and a crossfade only if an ellipsis is
    followed by more text. *)
Theorem cleaned_text_transition (s : EnhancedSegment) :
  tooShort (cleanSegmentText (text s)) = false ->
  let d := convertSegment s in
  let timing := calculateTiming (segment d) (speechRate d) in
  (forall pre, segment d <> pre ++ lit ".")
  /\ (transitionType timing = cut ->
      exists pre c, segment d = pre ++ [c] /\ (c = 33%N \/ c = 63%N))
  /\ (transitionType timing = crossfade ->
      exists pre post, segment d = pre ++ lit "..." ++ post /\ post <> []).
Proof.
  intros Hkept. cbv zeta.
  assert (Hseg : segment (convertSegment s) = cleanSegmentText (text s)).
  { unfold convertSegment; cbn [segment]. unfold segmentText. now rewrite Hkept. }
  rewrite Hseg.
  destruct (cleanSegmentText_ends (text s)) as [Hh Hl].
  set (c := cleanSegmentText (text s)) in *.
  assert (Hdot : forall pre, c <> pre ++ lit ".").
  { intros pre E. apply Hl in E. vm_compute in E. discriminate. }
  split; [exact Hdot|].
  unfold calculateTiming; cbn [transitionType].
  rewrite (trim_clean Hh Hl). unfold re_terminal.
  destruct (includes c (lit "...")) eqn:Hi.
  - split; [discriminate|]. intros _.
    apply includes_spec in Hi as [pre [post E]].
    exists pre, post. split; [assumption|]. intros ->.
    apply (Hdot (pre ++ lit "..")). rewrite E, app_nil_r, <- app_assoc. reflexivity.
  - destruct (test [Atom isTerminal One] true c) eqn:Ht; [|split; discriminate].
    split; [|discriminate]. intros _.
    apply test_terminal_spec in Ht as [pre [x [E Hx]]].
    exists pre, x. split; [assumption|].
    apply isTerminal_spec in Hx. destruct Hx as [Hx|[Hx|Hx]]; subst x;
      [|now left|now right].
    exfalso. now apply (Hdot pre).
Qed.

Lemma cleaned_text_transition_witness :
  tooShort (cleanSegmentText (text (plainSegment "Encore..." "lent"))) = false
  /\ segment (convertSegment (plainSegment "Encore..." "lent")) = lit "Encore"
  /\ forall pre, segment (convertSegment (plainSegment "Encore..." "lent")) <> pre ++ lit ".".
Proof.
  split; [reflexivity|]. split; [reflexivity|].
  apply (@cleaned_text_transition (plainSegment "Encore..." "lent") eq_refl).
Defined.

Lemma split_from_contains p s : forall skip cur piece,
  skip = 0%nat \/ cur = [] ->
  In piece (split_from p skip cur s) ->
  exists a b, rev cur ++ s = a ++ piece ++ b.
Proof.
  induction s as [|x t IH]; intros skip cur piece Hinv Hin.
  - assert (E : piece = rev cur).
    { destruct skip; cbn [split_from] in Hin; destruct Hin as [<-|[]]; reflexivity. }
    subst. exists [], []. now rewrite !app_nil_r.
  - destruct skip as [|n]; cbn [split_from] in Hin.
    + assert (Hpush : In piece (split_from p 0 (x :: cur) t) ->
                      exists a b, rev cur ++ x :: t = a ++ piece ++ b).
      { intros H. destruct (IH 0%nat (x :: cur) piece (or_introl eq_refl) H) as [a [b E]].
        exists a, b. rewrite <- E. simpl. now rewrite <- app_assoc. }
      destruct (matchHere p false (x :: t)) as [rest|]; [|now apply Hpush].
      destruct (List.length (x :: t) - List.length rest)%nat as [|m]; [now apply Hpush|].
      destruct Hin as [<-|Hin].
      * exists [], (x :: t). reflexivity.
      * destruct (IH m [] piece (or_intror eq_refl) Hin) as [a [b E]].
        simpl in E. exists (rev cur ++ x :: a), b. rewrite E, <- app_assoc. reflexivity.
    + destruct Hinv as [Hz| ->]; [discriminate|].
      destruct (IH n [] piece (or_intror eq_refl) Hin) as [a [b E]].
      simpl in E. exists (x :: a), b. simpl. now rewrite E.
Qed.

(** X8.  The segments of [analyzeTextLocally].  There is always at least
    one; each one is a contiguous part of the text; when the text is not
    blank none of them is blank, and when it is blank the text itself is
    the only segment. *)
Theorem local_segments_are_paragraphs (text : jsstring) :
  analyzeTextLocally text <> []
  /\ Forall (fun d => Contains text (segment d)) (analyzeTextLocally text)
  /\ (whitespaceOnly text = false ->
      Forall (fun d => whitespaceOnly (segment d) = false) (analyzeTextLocally text))
  /\ (whitespaceOnly text = true -> map segment (analyzeTextLocally text) = [text]).
Proof.
  split; [apply analyzeTextLocally_nonempty|].
  assert (Hkeep : forall (P : jsstring -> Prop) l,
             Forall P l -> Forall (fun d => P (segment d)) (addTiming (map localSegment l))).
  { intros P l H. apply addTiming_Forall; [intros seg c t Hs; exact Hs|].
    apply Forall_map. eapply Forall_impl; [|exact H]. intros a Ha. exact Ha. }
  unfold analyzeTextLocally.
  set (paragraphs := filter (fun p => (0 <? List.length (trim p))%nat)
                       (split re_blank_lines text)).
  assert (Hsub : Forall (Contains text) paragraphs).
  { apply Forall_forall. intros piece Hin. apply filter_In in Hin as [Hin _].
    destruct (@split_from_contains re_blank_lines text 0 [] piece (or_introl eq_refl) Hin)
      as [a [b E]].
    exists a, b. exact E. }
  assert (Hnb : Forall (fun p => whitespaceOnly p = false) paragraphs).
  { apply Forall_forall. intros piece Hin. apply filter_In in Hin as [_ Hlen].
    destruct (whitespaceOnly piece) eqn:E; [|reflexivity].
    rewrite (trim_whitespace _ E) in Hlen. discriminate. }
  split; [|split].
  - apply Hkeep. destruct paragraphs; [|exact Hsub].
    constructor; [|constructor]. exists [], []. now rewrite app_nil_r.
  - intros Htext. apply (Hkeep (fun p => whitespaceOnly p = false)).
    destruct paragraphs; [|exact Hnb]. constructor; [assumption|constructor].
  - intros Htext. subst paragraphs.
    rewrite (BlankTextFacts.paragraphs_blank _ Htext). reflexivity.
Qed.

End MoreConversionFacts.

Module MoreVoiceFacts.
Import MoreProperties.
Import JsString Grok VoiceSettings EmotionTransitions Properties.
Import JsStringFacts VoiceSettingsFacts.
Local Open Scope Q_scope.

Lemma knownEmotion_cases e : knownEmotion e = true -> In e emotions.
Proof.
  unfold knownEmotion. intros H. apply existsb_exists in H as [x [Hin Hx]].
  apply eqb_eq in Hx. now subst.
Qed.

Lemma known_not_inherited e : knownEmotion e = true -> inheritedMember e = false.
Proof.
  intros H. apply knownEmotion_cases in H. unfold emotions in H. cbn [In] in H.
  repeat (destruct H as [H|H]; [subst e; vm_compute; reflexivity|]). destruct H.
Qed.

Lemma unknown_row e :
  knownEmotion e = false -> get e transitionMap = if inheritedMember e then Inherited else Absent.
Proof.
  unfold knownEmotion, emotions. cbn [existsb]. rewrite !orb_false_iff.
  intros (H1 & H2 & H3 & H4 & H5 & H6 & _).
  unfold transitionMap. cbn [get]. now rewrite H1, H2, H3, H4, H5, H6.
Qed.

Lemma known_row e : knownEmotion e = true -> exists row, get e transitionMap = Own row.
Proof.
  intros H. apply knownEmotion_cases in H. unfold emotions in H. cbn [In] in H.
  repeat (destruct H as [H|H]; [subst e; eexists; vm_compute; reflexivity|]). destruct H.
Qed.

Lemma unknown_column e current row :
  knownEmotion e = false -> get current transitionMap = Own row ->
  get e row = if inheritedMember e then Inherited else Absent.
Proof.
  unfold knownEmotion, emotions. cbn [existsb]. rewrite !orb_false_iff.
  intros (H1 & H2 & H3 & H4 & H5 & H6 & _).
  unfold transitionMap. cbn [get].
  repeat match goal with
         | |- context [eqb current ?k] =>
             destruct (eqb current k);
             [intros [= <-]; cbn [get]; now rewrite ?H1, ?H2, ?H3, ?H4, ?H5, ?H6|]
         end.
  destruct (inheritedMember current); discriminate.
Qed.

Lemma unknown_duration a b :
  inheritedMember a = false -> inheritedMember b = false ->
  knownEmotion a = false \/ knownEmotion b = false ->
  calculateEmotionTransitionDuration a b = Milliseconds 500.
Proof.
  unfold calculateEmotionTransitionDuration. intros Ia Ib [H|H].
  - now rewrite (@unknown_row a H), Ia.
  - destruct (get a transitionMap) as [row| |] eqn:E; [| |reflexivity].
    + now rewrite (@unknown_column b a row H E), Ib.
    + destruct (knownEmotion a) eqn:Ka.
      * destruct (@known_row a Ka) as [row Hrow]. congruence.
      * rewrite (@unknown_row a Ka), Ia in E. discriminate.
Qed.

Lemma inherited_duration a b :
  inheritedMember a = true \/ (knownEmotion a = true /\ inheritedMember b = true) ->
  calculateEmotionTransitionDuration a b = FromPrototype.
Proof.
  unfold calculateEmotionTransitionDuration. intros [Ia|[Ka Ib]].
  - destruct (knownEmotion a) eqn:Ka.
    + apply known_not_inherited in Ka. congruence.
    + now rewrite (@unknown_row a Ka), Ia.
  - destruct (@known_row a Ka) as [row Hrow]. rewrite Hrow.
    destruct (knownEmotion b) eqn:Kb.
    + apply known_not_inherited in Kb. congruence.
    + now rewrite (@unknown_column b a row Kb Hrow), Ib.
Qed.



Lemma clamp_monotone lo hi x y : x <= y -> Qmax lo (Qmin hi x) <= Qmax lo (Qmin hi y).
Proof.
  intros H. apply Q.max_le_compat_l. apply Q.min_le_compat_l. assumption.
Qed.

Lemma lookup_known emotion settings :
  lookup emotion baseSettings = Some settings -> knownEmotion emotion = true.
Proof.
  unfold baseSettings, knownEmotion, emotions. cbn [lookup existsb].
  repeat match goal with
         | |- context [eqb emotion ?k] => destruct (eqb emotion k); [reflexivity|]
         end.
  discriminate.
Qed.

(** X10.  How [getVoiceSettings] moves with the analysis.  For a label that
    is no name that every object inherits, both settings are numbers; the
    stability does not increase when the intensity increases, the
    similarity boost does not decrease when the emotional progression
    increases, and the stability depends on the analysis through the
    intensity only; such a label, when it is none of the six emotions, gets
    the settings of [sensuel].  For a name that every object inherits both
    settings are [NaN], whatever the analysis. *)
Theorem voice_settings_monotone (emotion : jsstring) (a1 a2 : TextAnalysis) :
  (inheritedMember emotion = false ->
   exists s1 s2 b1 b2,
     stability (getVoiceSettings emotion a1) = Num s1
     /\ stability (getVoiceSettings emotion a2) = Num s2
     /\ similarity_boost (getVoiceSettings emotion a1) = Num b1
     /\ similarity_boost (getVoiceSettings emotion a2) = Num b2
     /\ (intensity a1 <= intensity a2 -> s2 <= s1)
     /\ (emotionalProgression a1 <= emotionalProgression a2 -> b1 <= b2)
     /\ (intensity a1 == intensity a2 -> s1 == s2))
  /\ (inheritedMember emotion = false -> knownEmotion emotion = false ->
      getVoiceSettings emotion a1 = getVoiceSettings (lit "sensuel") a1)
  /\ (inheritedMember emotion = true ->
      getVoiceSettings emotion a1 = {| stability := NaN; similarity_boost := NaN |}).
Proof.
  split; [|split].
  - intros Hown.
    destruct (settingsFor_cases emotion Hown) as [_ (bs & bb & Hs & Hb & Hbs & Hbb)].
    unfold getVoiceSettings; cbn [stability similarity_boost].
    rewrite Hs, Hb. cbn [times plus mathMin mathMax].
    eexists _, _, _, _. do 4 (split; [reflexivity|]).
    split; [|split].
    + intros H. apply clamp_monotone. apply Qmult_le_l; [assumption|]. lra.
    + intros H. apply clamp_monotone. lra.
    + intros H. now rewrite H.
  - intros Hown Hunknown. unfold getVoiceSettings, settingsFor.
    destruct (lookup emotion baseSettings) as [settings|] eqn:E.
    + apply lookup_known in E. congruence.
    + now rewrite Hown.
  - intros Hin. unfold getVoiceSettings. now rewrite (settingsFor_inherited _ Hin).
Qed.

Lemma voice_settings_monotone_witness :
  (exists s1 s2,
     stability (getVoiceSettings (lit "murmure")
                  {| intensity := 0; emotionalProgression := 0 |}) = Num s1
     /\ stability (getVoiceSettings (lit "murmure")
                     {| intensity := 1; emotionalProgression := 0 |}) = Num s2
     /\ s2 <= s1)
  /\ getVoiceSettings (lit "hasOwnProperty") {| intensity := 0; emotionalProgression := 0 |}
     = {| stability := NaN; similarity_boost := NaN |}.
Proof.
  destruct (voice_settings_monotone (lit "murmure")
              {| intensity := 0; emotionalProgression := 0 |}
              {| intensity := 1; emotionalProgression := 0 |}) as [H _].
  destruct H as (s1 & s2 & _ & _ & H1 & H2 & _ & _ & Hle & _); [vm_compute; reflexivity|].
  split.
  - exists s1, s2. split; [exact H1|]. split; [exact H2|]. apply Hle. discriminate.
  - apply (voice_settings_monotone (lit "hasOwnProperty")
             {| intensity := 0; emotionalProgression := 0 |}
             {| intensity := 1; emotionalProgression := 0 |}).
    vm_compute; reflexivity.
Defined.

Lemma findSounds_In env entries sounds :
  findSounds env entries = Some sounds -> exists key, In (key, sounds) entries.
Proof.
  induction entries as [|[key s] rest IH]; cbn [findSounds]; [discriminate|].
  destruct (includes env (normalizeEnvironment key)
            || includes (normalizeEnvironment key) env).
  - intros [= <-]. exists key. now left.
  - intros H. destruct (IH H) as [k Hk]. exists k. now right.
Qed.

(** X11.  The sounds of an environment.  [mapEnvironmentToSounds] always
    returns the sounds of an entry of the catalog, one or two of them; and
    an environment that is a key of the catalog gets the sounds of its own
    entry, no earlier entry taking its place. *)
Theorem sounds_from_catalog (environment : jsstring) :
  (exists key, In (key, mapEnvironmentToSounds environment) environmentSounds)
  /\ (1 <= List.length (mapEnvironmentToSounds environment) <= 2)%nat
  /\ (forall sounds, In (environment, sounds) environmentSounds ->
      mapEnvironmentToSounds environment = sounds).
Proof.
  assert (Hcat : exists key, In (key, mapEnvironmentToSounds environment) environmentSounds).
  { unfold mapEnvironmentToSounds.
    destruct (findSounds (normalizeEnvironment environment) environmentSounds) eqn:E.
    - now apply findSounds_In in E.
    - exists (lit "default"). unfold environmentSounds. cbn [In].
      do 17 right. left. reflexivity. }
  split; [exact Hcat|]. split.
  - destruct Hcat as [key Hin]. revert Hin.
    generalize (mapEnvironmentToSounds environment). intros sounds.
    unfold environmentSounds, defaultSounds. cbn [In].
    intros H. repeat (destruct H as [H|H]; [injection H as _ <-; simpl; lia|]).
    destruct H.
  - intros sounds. unfold environmentSounds at 1. cbn [In].
    intros H. repeat (destruct H as [H|H]; [injection H as <- <-; vm_compute; reflexivity|]).
    destruct H.
Qed.

Lemma localEmotionalTone_cases p : In (localEmotionalTone p) emotions.
Proof.
  unfold localEmotionalTone.
  repeat match goal with |- context [if ?b then _ else _] => destruct b end;
    vm_compute; repeat (first [left; reflexivity | right]).
Qed.

Lemma localEnvironment_cases p :
  In (localEnvironment p, mapEnvironmentToSounds (localEnvironment p)) environmentSounds
  /\ In (localEnvironment p) localEnvironments
  /\ List.length (mapEnvironmentToSounds (localEnvironment p)) = 2%nat.
Proof.
  unfold localEnvironment.
  repeat match goal with |- context [if ?b then _ else _] => destruct b end;
    (split; [|split; [|vm_compute; reflexivity]]);
    [ vm_compute; repeat (first [left; reflexivity | right])
    | vm_compute; repeat (first [left; reflexivity | right]) ..].
Qed.

Lemma localSegment_parameters p : LocalParameters (localSegment p).
Proof.
  unfold LocalParameters, localSegment;
    cbn [emotionalTone environment soundEffects volume speechRate elevenlabsParams].
  destruct (localEnvironment_cases p) as (He1 & He2 & He3).
  split; [apply localEmotionalTone_cases|].
  split; [assumption|]. split; [assumption|]. split; [assumption|].
  split; [reflexivity|]. split; [reflexivity|].
  eexists. split; [reflexivity|]. cbn [stability similarity_boost].
  destruct (localEmotionalTone p === "jouissance");
    [repeat split; try discriminate; reflexivity|].
  destruct (localEmotionalTone p === "excite");
    [repeat split; try discriminate; reflexivity|].
  destruct (localEmotionalTone p === "murmure") eqn:Em.
  { unfold strictEq in Em. apply eqb_eq in Em. rewrite Em.
    repeat split; try discriminate; vm_compute; reflexivity. }
  destruct (localEmotionalTone p === "intense");
    repeat split; try discriminate; reflexivity.
Qed.

(** X12.  The parameters of the local analysis.  Every segment of
    [analyzeTextLocally], and so every segment of [analyzeTextEnvironments]
    when the conversion of the reply raises, has one of the six emotions as
    its tone, one of five environments with the two sounds of its catalog
    entry, the volume [normal] and the rate [lent], a stability in
    [0.3, 0.8] and a similarity boost in [0.75, 0.95]; the stability is at
    most 0.4 exactly for the tones [jouissance], [excite] and [intense],
    which are also those with a similarity boost of at least 0.9. *)
Theorem local_analysis_parameters (text : jsstring) :
  Forall LocalParameters (analyzeTextLocally text)
  /\ (forall outcome, requestSegments outcome = inr IllTyped ->
      Forall LocalParameters (analyzeTextEnvironments text outcome)).
Proof.
  assert (H : Forall LocalParameters (analyzeTextLocally text)).
  { unfold analyzeTextLocally.
    apply ConversionFacts.addTiming_Forall; [intros seg c t Hs; exact Hs|].
    apply Forall_map, Forall_forall. intros p _. apply localSegment_parameters. }
  split; [exact H|]. intros outcome Hreq.
  unfold analyzeTextEnvironments, analyzeTextWithGrok. rewrite Hreq. exact H.
Qed.

End MoreVoiceFacts.

Module JsonCleaningFacts.
Import MoreProperties.
Import JsString Grok GrokJson Properties.
Import JsStringFacts RegexFacts CleaningFacts.
Local Open Scope N_scope.

Lemma star_total_cont k c s :
  (forall s', exists r, k s' = Some r) -> exists r, star k c s = Some r.
Proof.
  intros Hk. induction s as [|x s [r IH]]; simpl; [apply Hk|].
  destruct (c x); [rewrite IH; eauto | apply Hk].
Qed.

Lemma json_leading_total s : exists r, matchHere re_json_leading false s = Some r.
Proof.
  unfold re_json_leading. cbn [matchHere rep cls].
  apply star_total_cont. intros s'. apply star_total. reflexivity.
Qed.

Lemma json_leading_rest s r :
  matchHere re_json_leading false s = Some r -> HeadClean r.
Proof.
  unfold re_json_leading. cbn [matchHere rep cls]. intros H.
  apply star_from in H as [s' H].
  intros c rest E. eapply star_greedy; [|exact H|exact E]. reflexivity.
Qed.

Lemma Within_json_leading : Within (fun c => isNumbering c = true) re_json_leading.
Proof. repeat constructor; cbn [cls]; auto using isSpace_isNumbering. Qed.

Lemma Within_json_trailing : Within (fun c => isNumbering c = true) re_json_trailing.
Proof. repeat constructor; cbn [cls]; auto using isSpace_isNumbering. Qed.

Lemma replace_json_leading s :
  HeadClean (replaceAtStart re_json_leading false [] s)
  /\ exists pre, s = pre ++ replaceAtStart re_json_leading false [] s
                 /\ Forall (fun c => isNumbering c = true) pre.
Proof.
  unfold replaceAtStart. destruct (json_leading_total s) as [r E]. rewrite E.
  split; [now apply json_leading_rest in E|].
  exact (@matchHere_consumes _ _ false Within_json_leading s r E).
Qed.

Lemma json_trailing_inv s r :
  matchHere re_json_trailing true s = Some r ->
  r = [] /\ Forall (fun c => isNumbering c = true) s.
Proof.
  intros H. pose proof (matchHere_eol _ _ H) as ->. split; [reflexivity|].
  destruct (@matchHere_consumes _ _ true Within_json_trailing s [] H) as [pre [-> Hpre]].
  now rewrite app_nil_r.
Qed.

Lemma json_trailing_all s :
  forallb isNumbering s = true -> matchHere re_json_trailing true s = Some [].
Proof. apply star_all_numbering. Qed.

Lemma replace_json_trailing s :
  LastClean (replaceFirst re_json_trailing true [] s)
  /\ exists post, s = replaceFirst re_json_trailing true [] s ++ post
                  /\ Forall (fun c => isNumbering c = true) post.
Proof.
  induction s as [|x s [IHl [post [IHp IHn]]]]; cbn [replaceFirst].
  - rewrite (json_trailing_all [] eq_refl). split; [apply LastClean_nil|].
    exists []. now split.
  - destruct (matchHere re_json_trailing true (x :: s)) as [r|] eqn:E.
    + apply json_trailing_inv in E as [-> Hall]. split; [apply LastClean_nil|].
      exists (x :: s). now split.
    + split.
      * destruct (replaceFirst re_json_trailing true [] s) as [|y out] eqn:Hout.
        -- intros pre c H. destruct pre as [|z pre]; [|now destruct pre].
           injection H as <-.
           destruct (isNumbering x) eqn:Hx; [|reflexivity].
           assert (Hall : forallb isNumbering (x :: s) = true).
           { simpl. rewrite Hx. simpl. rewrite IHp. simpl.
             apply forallb_forall. now apply Forall_forall. }
           apply json_trailing_all in Hall. congruence.
        -- apply LastClean_cons; [discriminate | exact IHl].
      * exists post. split; [|assumption]. simpl. now rewrite <- IHp.
Qed.

Lemma line_number_shape : StartsWithNumbering re_line_number.
Proof. split; [discriminate | exact isDigit_isNumbering]. Qed.

Lemma cleanEnds_spec s :
  cleanEnds s = true -> s <> [] /\ HeadClean s /\ LastClean s.
Proof.
  destruct s as [|x t]; [discriminate|]. unfold cleanEnds.
  intros H. apply andb_true_iff in H as [Hx Hl].
  apply negb_true_iff in Hx, Hl. split; [discriminate|]. split.
  - intros c rest E. now injection E as <- _.
  - intros pre c E. rewrite E in Hl.
    rewrite last_last in Hl. assumption.
Qed.

(** X13.  The JSON text that [analyzeTextWithGrok] parses.  After the
    cleaning it neither starts nor ends with a digit, a dot or a white
    space; the fourth replacement and the [trim] never change anything, the
    first three replacements doing all the work; and the text handed to
    [JSON.parse] always starts with an opening brace. *)
Theorem json_cleaning_ends (jsonContent : jsstring) :
  cleanJsonContent jsonContent
  = replaceAll re_list_number [10]
      (replaceFirst re_json_trailing true []
         (replaceAtStart re_json_leading false [] jsonContent))
  /\ HeadClean (cleanJsonContent jsonContent)
  /\ LastClean (cleanJsonContent jsonContent)
  /\ startsWith (jsonToParse jsonContent) (lit "{") = true.
Proof.
  assert (Hclean : cleanJsonContent jsonContent
                   = replaceAll re_list_number [10]
                       (replaceFirst re_json_trailing true []
                          (replaceAtStart re_json_leading false [] jsonContent))
                   /\ HeadClean (cleanJsonContent jsonContent)
                   /\ LastClean (cleanJsonContent jsonContent)).
  { unfold cleanJsonContent.
    set (t1 := replaceAtStart re_json_leading false [] jsonContent).
    set (t2 := replaceFirst re_json_trailing true [] t1).
    set (t3 := replaceAll re_list_number [10] t2).
    assert (H1 : HeadClean t1) by apply replace_json_leading.
    assert (H2 : HeadClean t2 /\ LastClean t2).
    { split; [|apply replace_json_trailing].
      destruct (replace_json_trailing t1) as [_ [post [E _]]].
      intros c rest Ec. fold t2 in E. rewrite Ec in E. now apply (H1 c (rest ++ post)). }
    destruct list_number_shape as [Hs Hw].
    assert (H3 : HeadClean t3 /\ LastClean t3).
    { split; [now apply replaceAll_head | now apply replaceAll_last]. }
    destruct H3 as [Hh Hl].
    assert (E4 : replaceAtStart re_line_number false [] t3 = t3).
    { unfold replaceAtStart.
      now rewrite (@matchHere_needs_numbering re_line_number false t3 line_number_shape Hh). }
    rewrite E4, (trim_clean Hh Hl). auto. }
  destruct Hclean as (E & Hh & Hl). repeat split; try assumption.
  unfold jsonToParse. destruct (startsWith (cleanJsonContent jsonContent) (lit "{")) eqn:Es.
  - exact Es.
  - reflexivity.
Qed.

(** X14.  A body is recovered from the numbering around it.  When digits,
    dots and white space only surround a body that starts and ends with
    other units and holds no line break followed by digits and a dot, the
    cleaning of [analyzeTextWithGrok] gives back the body exactly, and the
    body is what is parsed when it starts with an opening brace. *)
Theorem json_recovered (pre body post : jsstring) :
  forallb isNumbering pre = true ->
  forallb isNumbering post = true ->
  cleanEnds body = true ->
  test re_list_number false body = false ->
  cleanJsonContent (pre ++ body ++ post) = body
  /\ (startsWith body (lit "{") = true -> jsonToParse (pre ++ body ++ post) = body).
Proof.
  intros Hpre Hpost Hbody Hlist.
  apply cleanEnds_spec in Hbody as (Hne & Hh & Hl).
  rewrite forallb_forall, <- Forall_forall in Hpre, Hpost.
  assert (E : cleanJsonContent (pre ++ body ++ post) = body).
  { unfold cleanJsonContent.
    destruct (replace_json_leading (pre ++ body ++ post)) as [H1 [pre' [E1 Hpre']]].
    assert (E1' : replaceAtStart re_json_leading false [] (pre ++ body ++ post)
                  = body ++ post).
    { symmetry.
      apply (@clean_prefix_unique pre pre' (body ++ post) _ Hpre Hpre'
               (HeadClean_app post Hne Hh) H1 E1). }
    rewrite E1'.
    destruct (replace_json_trailing (body ++ post)) as [H2 [post' [E2 Hpost']]].
    assert (E2' : replaceFirst re_json_trailing true [] (body ++ post) = body).
    { symmetry. apply (@clean_suffix_unique body _ post post' Hpost Hpost' Hl H2 E2). }
    rewrite E2', (replaceAll_nomatch _ _ _ Hlist).
    unfold replaceAtStart.
    rewrite (@matchHere_needs_numbering re_line_number false body line_number_shape Hh).
    now apply trim_clean. }
  split; [exact E|]. intros Hs. unfold jsonToParse. now rewrite E, Hs.
Qed.

Lemma json_recovered_witness :
  cleanJsonContent (lit "1. " ++ lit "{}" ++ [10; 50; 46]) = lit "{}"
  /\ jsonToParse (lit "1. " ++ lit "{}" ++ [10; 50; 46]) = lit "{}".
Proof.
  destruct (@json_recovered (lit "1. ") (lit "{}") [10; 50; 46]
              eq_refl eq_refl eq_refl eq_refl) as [H1 H2].
  split; [exact H1 | exact (H2 eq_refl)].
Defined.

End JsonCleaningFacts.

Module VoiceSegmentFacts.
Import JsString Grok ElevenLabsVoice Properties MoreProperties.
Import JsStringFacts RegexFacts CleaningFacts.
Local Open Scope N_scope.

Section SplitOnRuns.
(** Splitting on [/[c]+/], the runs of the units of a class [c]. *)
Variable c : N -> bool.

Lemma plus_match x t :
  matchHere [Atom c Plus] false (x :: t)
  = if c x then star (matchHere [] false) c t else None.
Proof. reflexivity. Qed.

Lemma run_consumed t rest :
  star (matchHere [] false) c t = Some rest ->
  exists run, t = run ++ rest /\ Forall (fun y => c y = true) run.
Proof.
  intros H.
  apply (@matchHere_consumes (fun y => c y = true) [Atom c Star] false); [|exact H].
  repeat constructor. cbn [cls]. auto.
Qed.

Lemma run_length x t rest :
  star (matchHere [] false) c t = Some rest ->
  exists run, t = run ++ rest /\ Forall (fun y => c y = true) run
              /\ (List.length (x :: t) - List.length rest = S (List.length run))%nat.
Proof.
  intros H. apply run_consumed in H as [run [-> Hrun]]. exists run.
  repeat split; [assumption|]. cbn [List.length]. rewrite length_app. lia.
Qed.

Lemma split_runs_no_class s : forall skip cur,
  Forall (fun y => c y = false) cur ->
  Forall (Forall (fun y => c y = false)) (split_from [Atom c Plus] skip cur s).
Proof.
  induction s as [|x t IH]; intros skip cur Hcur.
  - destruct skip; cbn [split_from]; repeat constructor; now apply Forall_rev.
  - destruct skip as [|n]; [|cbn [split_from]; now apply IH].
    cbn [split_from]. rewrite plus_match. destruct (c x) eqn:Hx.
    + destruct (star (matchHere [] false) c t) as [rest|] eqn:E.
      * destruct (@run_length x t rest E) as [run (_ & _ & ->)].
        constructor; [now apply Forall_rev | apply IH; constructor].
      * destruct (@star_total (matchHere [] false) c t) as [r Hr]; [reflexivity|].
        congruence.
    + apply IH. now constructor.
Qed.

Lemma filter_run run rest :
  Forall (fun y => c y = true) run ->
  filter (fun y => negb (c y)) (run ++ rest) = filter (fun y => negb (c y)) rest.
Proof.
  induction 1 as [|y run Hy _ IH]; [reflexivity|]. simpl. now rewrite Hy.
Qed.

Lemma split_runs_concat s : forall skip cur,
  Forall (fun y => c y = true) (firstn skip s) ->
  List.concat (split_from [Atom c Plus] skip cur s)
  = rev cur ++ filter (fun y => negb (c y)) s.
Proof.
  induction s as [|x t IH]; intros skip cur Hskip.
  - destruct skip; cbn [split_from List.concat filter]; now rewrite !app_nil_r.
  - destruct skip as [|n].
    + cbn [split_from]. rewrite plus_match. cbn [filter]. destruct (c x) eqn:Hx.
      * destruct (star (matchHere [] false) c t) as [rest|] eqn:E.
        -- destruct (@run_length x t rest E) as [run (Ht & Hrun & ->)].
           cbn [List.concat negb]. rewrite IH; [reflexivity|].
           rewrite Ht, firstn_app, Nat.sub_diag, firstn_all. cbn [firstn].
           now rewrite app_nil_r.
        -- destruct (@star_total (matchHere [] false) c t) as [r Hr]; [reflexivity|].
           congruence.
      * cbn [negb]. rewrite IH by constructor. cbn [rev]. now rewrite <- app_assoc.
    + cbn [split_from firstn filter] in *. inversion Hskip as [|? ? Hx Hn]; subst.
      rewrite Hx. cbn [negb]. now apply IH.
Qed.
End SplitOnRuns.

Lemma trimStart_nil_inv s : trimStart s = [] -> whitespaceOnly s = true.
Proof.
  unfold whitespaceOnly. induction s as [|x s IH]; simpl; [reflexivity|].
  destruct (isSpace x); [exact IH | discriminate].
Qed.

Lemma whitespaceOnly_trimStart s :
  whitespaceOnly (trimStart s) = true -> whitespaceOnly s = true.
Proof.
  unfold whitespaceOnly. induction s as [|x s IH]; simpl; [reflexivity|].
  destruct (isSpace x) eqn:Hx; [exact IH|]. simpl. now rewrite Hx.
Qed.

Lemma trim_nil_inv s : trim s = [] -> whitespaceOnly s = true.
Proof.
  unfold trim, trimEnd. intros H.
  apply (f_equal (@rev N)) in H. rewrite rev_involutive in H. simpl in H.
  apply trimStart_nil_inv in H.
  change (forallb isSpace ?l) with (whitespaceOnly l) in H.
  apply whitespaceOnly_trimStart.
  rewrite <- H. symmetry. apply MoreTimingFacts.whitespaceOnly_rev.
Qed.

Lemma nonblank_spec s :
  (0 <? List.length (trim s))%nat = negb (whitespaceOnly s).
Proof.
  destruct (whitespaceOnly s) eqn:E.
  - now rewrite (trim_whitespace _ E).
  - destruct (trim s) eqn:Et; [|reflexivity].
    apply trim_nil_inv in Et. congruence.
Qed.

Lemma filter_notSpace_blank s : whitespaceOnly s = true -> filter notSpace s = [].
Proof.
  unfold whitespaceOnly, notSpace. induction s as [|x s IH]; simpl; [reflexivity|].
  intros H. apply andb_true_iff in H as [-> Hs]. now apply IH.
Qed.

Lemma filter_notSpace_nonblank s :
  whitespaceOnly s = false -> filter notSpace s <> [].
Proof.
  unfold whitespaceOnly, notSpace. induction s as [|x s IH]; simpl; [discriminate|].
  destruct (isSpace x); simpl; [exact IH | discriminate].
Qed.

Lemma concat_nonblank pieces :
  filter notSpace (List.concat (filter (fun s => (0 <? List.length (trim s))%nat) pieces))
  = filter notSpace (List.concat pieces).
Proof.
  induction pieces as [|s pieces IH]; [reflexivity|]. cbn [filter List.concat].
  rewrite nonblank_spec. destruct (whitespaceOnly s) eqn:E; cbn [negb List.concat].
  - rewrite filter_app, (filter_notSpace_blank _ E). exact IH.
  - rewrite !filter_app. now rewrite IH.
Qed.

Lemma filter_filter (A : Type) (f g : A -> bool) l :
  filter f (filter g l) = filter (fun x => g x && f x) l.
Proof.
  induction l as [|x l IH]; [reflexivity|]. simpl.
  destruct (g x); simpl; [destruct (f x)|]; now rewrite IH.
Qed.

Lemma filter_nil_iff (A : Type) (f : A -> bool) l :
  filter f l = [] <-> forallb (fun x => negb (f x)) l = true.
Proof.
  induction l as [|x l IH]; [simpl; tauto|]. simpl.
  destruct (f x); simpl; [split; discriminate | exact IH].
Qed.

Lemma forallb_pointwise (A : Type) (f g : A -> bool) l :
  (forall x, f x = g x) -> forallb f l = forallb g l.
Proof.
  intros H. induction l as [|x l IH]; [reflexivity|]. simpl. now rewrite H, IH.
Qed.

Lemma voiceSegments_clean (text : jsstring) :
  Forall (fun s => Forall (fun c => isSentenceEnd c = false) s
                   /\ whitespaceOnly s = false) (voiceSegments text).
Proof.
  unfold voiceSegments, split, re_sentence_end. apply Forall_forall.
  intros s Hin. apply filter_In in Hin as [Hin Hs]. split.
  - pose proof (@split_runs_no_class isSentenceEnd text 0 [] (Forall_nil _)) as H.
    rewrite Forall_forall in H. now apply H.
  - rewrite nonblank_spec in Hs. now apply negb_true_iff in Hs.
Qed.

Lemma voiceSegments_units (text : jsstring) :
  filter notSpace (List.concat (voiceSegments text))
  = filter (fun c => negb (isSentenceEnd c) && notSpace c) text.
Proof.
  unfold voiceSegments, split, re_sentence_end. rewrite concat_nonblank.
  rewrite (@split_runs_concat isSentenceEnd text 0 [] (Forall_nil _)).
  cbn [rev app]. apply filter_filter.
Qed.

Lemma voiceSegments_nil_iff (text : jsstring) :
  voiceSegments text = [] <-> speechless text = true.
Proof.
  assert (Hmarks : forallb (fun c => negb (negb (isSentenceEnd c) && notSpace c)) text
                   = speechless text).
  { apply forallb_pointwise. intros c. unfold notSpace.
    now destruct (isSentenceEnd c), (isSpace c). }
  pose proof (voiceSegments_units text) as H2. split.
  - intros E. rewrite E in H2. cbn [List.concat filter] in H2. symmetry in H2.
    apply filter_nil_iff in H2. now rewrite <- Hmarks.
  - intros Hall. destruct (voiceSegments text) as [|s rest] eqn:E; [reflexivity|].
    exfalso. pose proof (voiceSegments_clean text) as H1. rewrite E in H1.
    inversion H1 as [|? ? [_ Hs] _]; subst.
    apply filter_notSpace_nonblank in Hs. apply Hs.
    assert (Hnil : filter notSpace (List.concat (s :: rest)) = []).
    { rewrite H2. apply filter_nil_iff. now rewrite Hmarks. }
    cbn [List.concat] in Hnil. rewrite filter_app in Hnil.
    now apply app_eq_nil in Hnil.
Qed.

(** X15.  The segments of [generateVoice].  None of them holds a [.], [!],
    [?] or ellipsis character and none is blank; white space apart, their
    units are those of the text that are no such mark, in the same
    order; and there is no segment at all exactly when the text holds only
    such marks and white space. *)
Theorem voice_segments_content (text : jsstring) :
  Forall (fun s => Forall (fun c => isSentenceEnd c = false) s
                   /\ whitespaceOnly s = false) (voiceSegments text)
  /\ filter notSpace (List.concat (voiceSegments text))
     = filter (fun c => negb (isSentenceEnd c) && notSpace c) text
  /\ (voiceSegments text = [] <-> speechless text = true).
Proof.
  split; [apply voiceSegments_clean|]. split; [apply voiceSegments_units|].
  apply voiceSegments_nil_iff.
Qed.

(** [/[c]$/] succeeds exactly on the strings whose last unit is in the
    class. *)
Lemma test_last_spec (c : N -> bool) (s : jsstring) :
  test [Atom c One] true s = true
  <-> exists pre x, s = pre ++ [x] /\ c x = true.
Proof.
  induction s as [|x s IH].
  - simpl. split; [discriminate|]. intros [pre [y [H _]]]. now destruct pre.
  - cbn [test matchHere rep cls]. destruct (c x) eqn:Hx.
    + destruct s as [|y s].
      * split; [|reflexivity]. intros _. now exists [], x.
      * rewrite IH. split.
        -- intros [pre [z [H Hz]]]. exists (x :: pre), z. simpl. now rewrite H.
        -- intros [[|z pre] [w [H Hw]]]; [discriminate|].
           injection H as -> H. now exists pre, w.
    + rewrite IH. split.
      * intros [pre [z [H Hz]]]. exists (x :: pre), z. simpl. now rewrite H.
      * intros [[|z pre] [w [H Hw]]].
        -- injection H as -> ->. congruence.
        -- injection H as -> H. now exists pre, w.
Qed.

(** X16.  The pause of 150 ms that [generateVoiceWithEnvironment] writes
    after a segment.  When the cleaned text of a segment of the reply is
    kept, the pause follows it exactly when its text ends with [!], [?] or
    the ellipsis character: a final dot has been cleaned away, and gives no
    pause. *)
Theorem pause_after_cleaned_segment (s : EnhancedSegment) (i : nat) :
  tooShort (cleanSegmentText (text s)) = false ->
  breakBefore (S i) (Some (convertSegment s)) = Some 150%Z
  <-> exists pre c, segment (convertSegment s) = pre ++ [c]
                    /\ (c = 33 \/ c = 63 \/ c = 8230).
Proof.
  intros Hkept.
  assert (Hseg : segment (convertSegment s) = cleanSegmentText (text s)).
  { unfold convertSegment; cbn [segment]. unfold segmentText. now rewrite Hkept. }
  unfold breakBefore. cbn [Nat.eqb]. rewrite Hseg.
  destruct (cleanSegmentText_ends (text s)) as [_ Hl].
  destruct (test [Atom isSentenceEnd One] true (cleanSegmentText (text s))) eqn:Ht.
  - split; [intros _|reflexivity].
    apply test_last_spec in Ht as [pre [x [E Hx]]]. exists pre, x. split; [assumption|].
    unfold isSentenceEnd in Hx. apply orb_true_iff in Hx as [Hx|Hx].
    + apply isTerminal_spec in Hx. destruct Hx as [Hx|[Hx|Hx]]; subst x; auto.
      apply Hl in E. vm_compute in E. discriminate.
    + apply N.eqb_eq in Hx. auto.
  - split; [discriminate|]. intros [pre [x [E Hx]]]. exfalso.
    assert (Htest : test [Atom isSentenceEnd One] true (cleanSegmentText (text s)) = true).
    { apply test_last_spec. exists pre, x. split; [assumption|].
      destruct Hx as [->|[->| ->]]; reflexivity. }
    congruence.
Qed.

Lemma pause_after_cleaned_segment_witness :
  tooShort (cleanSegmentText (text (Examples.plainSegment "Viens." "lent"))) = false
  /\ breakBefore 1 (Some (convertSegment (Examples.plainSegment "Viens." "lent"))) = None
  /\ (breakBefore 1 (Some (convertSegment (Examples.plainSegment "Viens." "lent")))
      = Some 150%Z
      <-> exists pre c,
            segment (convertSegment (Examples.plainSegment "Viens." "lent")) = pre ++ [c]
            /\ (c = 33 \/ c = 63 \/ c = 8230)).
Proof.
  split; [reflexivity|]. split; [reflexivity|].
  apply (@pause_after_cleaned_segment (Examples.plainSegment "Viens." "lent") 0 eq_refl).
Defined.

End VoiceSegmentFacts.

Module VoiceGenerationFacts.
Import JsString Grok ElevenLabsVoice VoiceGeneration Properties MoreProperties.
Import JsStringFacts.
Local Open Scope nat_scope.

Section Requests.
Variable Blob : Type.
Implicit Types (attempt : nat -> Attempt Blob) (audio : list Blob).

Lemma simpleLoop_spec (segments : list jsstring) attempt : forall k acc audio,
  simpleLoop segments attempt k acc = Some audio
  <-> exists blobs, audio = acc ++ blobs
                    /\ map attempt (seq k (List.length segments)) = map (@Resolved Blob) blobs.
Proof.
  induction segments as [|s rest IH]; intros k acc audio; cbn [simpleLoop List.length seq map].
  - split.
    + intros [= <-]. exists []. now rewrite app_nil_r.
    + intros [[|b blobs] [-> E]]; [now rewrite app_nil_r | discriminate].
  - destruct (attempt k) as [| |data] eqn:Ek.
    + split; [discriminate|]. intros [[|b blobs] [_ E]]; discriminate.
    + split; [discriminate|]. intros [[|b blobs] [_ E]]; discriminate.
    + rewrite IH. split.
      * intros [blobs [-> E]]. exists (data :: blobs). rewrite <- app_assoc. split; [reflexivity|].
        cbn [map]. now rewrite E.
      * intros [[|b blobs] [-> E]]; [discriminate|]. cbn [map] in E.
        injection E as <- E. exists blobs. rewrite <- app_assoc. now split.
Qed.

Lemma environmentLoop_spec (segments : list EnvironmentDetection) attempt : forall i acc,
  environmentLoop segments attempt i acc
  = if existsb (@isRaised Blob) (map attempt (seq i (List.length segments)))
    then inl HelperError
    else inr (acc ++ resolved (map attempt (seq i (List.length segments)))).
Proof.
  induction segments as [|s rest IH]; intros i acc;
    cbn [environmentLoop List.length seq map existsb resolved].
  - now rewrite app_nil_r.
  - destruct (attempt i) as [| |data]; cbn [isRaised orb]; [reflexivity|apply IH|].
    rewrite IH. destruct (existsb _ _); [reflexivity|]. now rewrite <- app_assoc.
Qed.

Lemma speechless_spec text : voiceSegments text = [] <-> speechless text = true.
Proof. apply VoiceSegmentFacts.voiceSegments_nil_iff. Qed.

Lemma generateVoice_inr text (run : SimpleRun Blob) audio :
  generateVoice text run = inr audio
  <-> analysisReturns run = true
      /\ map (simpleAttempt run) (seq 0 (List.length (voiceSegments text)))
         = map (@Resolved Blob) audio.
Proof.
  unfold generateVoice. destruct (analysisReturns run).
  - destruct (simpleLoop (voiceSegments text) (simpleAttempt run) 0 []) as [blobs|] eqn:E.
    + apply simpleLoop_spec in E as [blobs' [-> E]]. cbn [app]. split.
      * intros [= <-]. now split.
      * intros [_ H]. rewrite E in H. f_equal.
        revert H. generalize audio. clear. induction blobs' as [|b l IH]; intros [|a audio] H;
          try discriminate; [reflexivity|]. injection H as -> H. f_equal. now apply IH.
    + split; [discriminate|]. intros [_ H]. exfalso.
      assert (Hs : simpleLoop (voiceSegments text) (simpleAttempt run) 0 [] = Some audio).
      { apply simpleLoop_spec. now exists audio. }
      congruence.
  - split; [discriminate|]. intros [H _]. discriminate.
Qed.

Lemma generateVoice_speechless text (run : SimpleRun Blob) :
  generateVoice text run = inr []
  <-> analysisReturns run = true /\ speechless text = true.
Proof.
  rewrite generateVoice_inr, <- speechless_spec. cbn [map]. split; intros [Ha H]; split; try assumption.
  - destruct (voiceSegments text); [reflexivity|discriminate].
  - now rewrite H.
Qed.

(** X17.  [generateVoice] is all or nothing.  It returns an audio exactly
    when the steps before the loop return and the attempt on every segment
    is answered, the audio being the answers in order; its only error is
    the one it makes itself; and it returns an empty audio exactly when
    those steps return and the text holds only sentence marks and white
    space. *)
Theorem simple_voice_all_or_nothing (text : jsstring) (run : SimpleRun Blob) :
  (forall audio,
     generateVoice text run = inr audio
     <-> analysisReturns run = true
         /\ map (simpleAttempt run) (seq 0 (List.length (voiceSegments text)))
            = map (@Resolved Blob) audio)
  /\ (forall error, generateVoice text run = inl error -> error = SimpleVoiceFailed)
  /\ (generateVoice text run = inr []
      <-> analysisReturns run = true /\ speechless text = true).
Proof.
  split; [intros audio; apply generateVoice_inr|]. split; [|apply generateVoice_speechless].
  unfold generateVoice. intros error.
  destruct (analysisReturns run); [|now intros [= <-]].
  destruct (simpleLoop _ _ _ _); [discriminate | now intros [= <-]].
Qed.

Lemma environmentBody_spec (segments : list EnvironmentDetection) attempt :
  environmentBody segments attempt
  = if existsb (@isRaised Blob) (map attempt (seq 0 (List.length segments)))
    then inl HelperError
    else match resolved (map attempt (seq 0 (List.length segments))) with
         | [] => inl NoAudioGenerated
         | audio => inr audio
         end.
Proof.
  unfold environmentBody. rewrite environmentLoop_spec. cbn [app].
  destruct (existsb _ _); [reflexivity|]. now destruct (resolved _).
Qed.

Lemma resolved_length (attempts : list (Attempt Blob)) :
  List.length (resolved attempts) <= List.length attempts.
Proof.
  induction attempts as [|[| |data] rest IH]; cbn [resolved List.length]; lia.
Qed.

(** X18.  What [generateVoiceWithEnvironment] returns.  When nothing is
    raised before a request and at least one request is answered, the audio
    is made of the answers, in order, at most one for each segment, a
    request that fails being skipped.  Otherwise the result is that of
    [generateVoice] on the whole text, and when this one fails too the error
    is the first one, never that of [generateVoice].  An empty audio is
    returned only for a text that holds only sentence marks and white
    space; and for such a text the function fails only if the steps of
    [generateVoice] before its loop do. *)
Theorem environment_voice_outcomes (text : jsstring) (outcome : FetchOutcome)
    (attempt : nat -> Attempt Blob) (simple : SimpleRun Blob) :
  let segments := analyzeTextEnvironments text outcome in
  let attempts := map attempt (seq 0 (List.length segments)) in
  let result := generateVoiceWithEnvironment text outcome attempt simple in
  (existsb (@isRaised Blob) attempts = false -> resolved attempts <> [] ->
   result = inr (resolved attempts))
  /\ (existsb (@isRaised Blob) attempts = true \/ resolved attempts = [] ->
      result = match generateVoice text simple with
               | inr audio => inr audio
               | inl _ => inl (if existsb (@isRaised Blob) attempts
                               then HelperError else NoAudioGenerated)
               end)
  /\ result <> inl SimpleVoiceFailed
  /\ List.length (resolved attempts) <= List.length segments
  /\ (result = inr [] -> speechless text = true)
  /\ (speechless text = true -> analysisReturns simple = true ->
      exists audio, result = inr audio).
Proof.
  cbv zeta. unfold generateVoiceWithEnvironment. rewrite environmentBody_spec.
  set (segments := analyzeTextEnvironments text outcome).
  set (attempts := map attempt (seq 0 (List.length segments))).
  assert (Hlen : List.length (resolved attempts) <= List.length segments).
  { etransitivity; [apply resolved_length|]. subst attempts.
    now rewrite length_map, length_seq. }
  destruct (existsb (@isRaised Blob) attempts) eqn:Hr.
  - repeat split; try assumption; try discriminate.
    + destruct (generateVoice text simple); discriminate.
    + destruct (generateVoice text simple) as [e|audio] eqn:Eg; [discriminate|].
      intros [= ->]. now apply generateVoice_speechless in Eg.
    + intros Hs Ha. exists [].
      now rewrite (proj2 (generateVoice_speechless text simple) (conj Ha Hs)).
  - destruct (resolved attempts) as [|b audio] eqn:Ea.
    + repeat split; try assumption; try congruence.
      * destruct (generateVoice text simple); discriminate.
      * destruct (generateVoice text simple) as [e|audio] eqn:Eg; [discriminate|].
        intros [= ->]. now apply generateVoice_speechless in Eg.
      * intros Hs Ha. exists [].
        now rewrite (proj2 (generateVoice_speechless text simple) (conj Ha Hs)).
    + repeat split; try assumption; try discriminate.
      * intros [H|H]; discriminate.
      * intros _ _. now exists (b :: audio).
Qed.

End Requests.

End VoiceGenerationFacts.
